(** * ingredient_parser.en.parser: orchestration and name recovery

    A shallow embedding of [src/ingredient_parser/en/parser.py]:
    the lazy model load, the two entry points [parse_ingredient_en] and
    [inspect_parser_en], and the heuristic [guess_ingredient_name].

    Python lists are [list]s read with stdpp's lookup and written with
    stdpp's insert, with the [IndexError] of an out-of-range subscript
    written out.  Python floats are Rocq's primitive binary64 floats, so the
    comparison [score >= 0.2] is the IEEE comparison the interpreter runs.
    Exceptions are values of [exn] carried by [result]; the module-level
    [TAGGER] is threaded explicitly through the entry points. *)

From Stdlib Require Import Floats ZArith.
From stdpp Require Import base list sorting strings.

Set Warnings "-inexact-float".

(** ** Exceptions and results *)

(** [RuntimeError] stands for the class and its subclasses (everything an
    [except RuntimeError] clause catches); [Exception cls] is any class
    outside that hierarchy. *)
Inductive exn : Type :=
  | RuntimeError
  | IndexError
  | Exception (cls : string).

Inductive result (A : Type) : Type :=
  | Ok (a : A)
  | Raise (e : exn).
Arguments Ok {A} a.
Arguments Raise {A} e.

#[global] Instance result_ret : MRet result := λ A a, Ok a.
#[global] Instance result_bind : MBind result := λ A B f m,
  match m with
  | Ok a => f a
  | Raise e => Raise e
  end.

(** What [except RuntimeError] catches. *)
Definition is_RuntimeError (e : exn) : bool :=
  match e with
  | RuntimeError => true
  | _ => false
  end.

(** ** Python list primitives *)

(** [l[i]] as an expression. *)
Definition getitem {A} (l : list A) (i : nat) : result A :=
  match l !! i with
  | Some x => Ok x
  | None => Raise IndexError
  end.

(** [l[i] = x] as a statement. *)
Definition setitem {A} (l : list A) (i : nat) (x : A) : result (list A) :=
  if decide (i < length l) then Ok (<[i:=x]> l) else Raise IndexError.

Fixpoint enumerate_from {A} (start : nat) (l : list A) : list (nat * A) :=
  match l with
  | [] => []
  | x :: r => (start, x) :: enumerate_from (S start) r
  end.

(** [enumerate(l)] *)
Definition enumerate {A} (l : list A) : list (nat * A) := enumerate_from 0 l.

(** A list comprehension whose element expression may raise. *)
Fixpoint comprehension {A B} (f : A → result B) (l : list A) : result (list B) :=
  match l with
  | [] => Ok []
  | x :: r => y ← f x; ys ← comprehension f r; Ok (y :: ys)
  end.

(** [for x in l: body], the loop state passed along. *)
Fixpoint for_in {A S} (l : list A) (body : A → S → result S) (s : S) : result S :=
  match l with
  | [] => Ok s
  | x :: r => s' ← body x s; for_in r body s'
  end.

Fixpoint insert_by {A} (key : A → nat) (x : A) (l : list A) : list A :=
  match l with
  | [] => [x]
  | y :: r => if decide (key x ≤ key y) then x :: y :: r else y :: insert_by key x r
  end.

(** [sorted(l, key=key)]: Python's sort is stable, and a stable sort has one
    result, given here by insertion from the right (an element goes in front
    of the elements of equal key that followed it in [l]). *)
Fixpoint sorted {A} (key : A → nat) (l : list A) : list A :=
  match l with
  | [] => []
  | x :: r => insert_by key x (sorted key r)
  end.

(** ** The sequence label oracle (pycrfsuite.Tagger) *)

(** The operations of the tagger object the module calls.  [info] and
    [marginal] are queries; [open] and [tag] change the tagger (the loaded
    model, the current sequence). *)
Record Oracle : Type := {
  Tagger : Type;
  Features : Type;
  info : Tagger → result unit;
  open : string → Tagger → result unit * Tagger;
  tag : list Features → Tagger → result (list string) * Tagger;
  marginal : string → nat → Tagger → result float;
}.

(** ** _common.group_consecutive_idx *)

(** Modelled from the spec: [group_consecutive_idx] lives in
    [ingredient_parser/_common.py], which is not among the sources; the
    specification has it "partition candidate positions into maximal runs of
    consecutive indices", in the order of the input. *)
Fixpoint group_consecutive_idx (idx : list nat) : list (list nat) :=
  match idx with
  | [] => []
  | i :: rest =>
      match group_consecutive_idx rest with
      | (j :: g) :: gs =>
          if decide (j = S i) then (i :: j :: g) :: gs else [i] :: (j :: g) :: gs
      | gs => [i] :: gs
      end
  end.

(** ** guess_ingredient_name *)

Definition NAME_THRESHOLD : float := 0.2%float.

(** [score >= 0.2] *)
Definition is_candidate (score : float) : bool := (NAME_THRESHOLD <=? score)%float.

(** [[i for i, score in enumerate(name_scores) if score >= 0.2]] *)
Definition candidate_indices (name_scores : list float) : list nat :=
  fst <$> List.filter (λ p, is_candidate (snd p)) (enumerate name_scores).

Section Guess.
Context (O : Oracle).

(** [[TAGGER.marginal("NAME", i) for i, _ in enumerate(labels)]] *)
Definition name_scores_of (t : Tagger O) (labels : list string) : result (list float) :=
  comprehension (λ p, marginal O "NAME" (fst p) t) (enumerate labels).

(** The loop [for i in indices: labels[i] = "NAME"; scores[i] = name_scores[i]]. *)
Definition assign_name (name_scores : list float) (i : nat)
    (s : list string * list float) : result (list string * list float) :=
  labels ← setitem (fst s) i "NAME";
  score ← getitem name_scores i;
  scores ← setitem (snd s) i score;
  Ok (labels, scores).

(** [guess_ingredient_name(labels, scores)], reading the module-level
    [TAGGER] in state [t]. *)
Definition guess_ingredient_name (t : Tagger O)
    (labels : list string) (scores : list float)
    : result (list string * list float) :=
  name_scores ← name_scores_of t labels;
  let candidates := candidate_indices name_scores in
  if decide (length candidates = 0) then Ok (labels, scores)
  else
    let groups := group_consecutive_idx candidates in
    indices ← getitem (sorted length groups) 0;
    for_in indices (assign_name name_scores) (labels, scores).
End Guess.

(** ** Code that runs against the module-level TAGGER *)

(** A computation over a global of type [S]: it returns or raises, and leaves
    the global in a new state either way. *)
Definition M (S A : Type) : Type := S → result A * S.

#[global] Instance M_ret {S} : MRet (M S) := λ A a s, (Ok a, s).
#[global] Instance M_bind {S} : MBind (M S) := λ A B f m s,
  match m s with
  | (Ok a, s') => f a s'
  | (Raise e, s') => (Raise e, s')
  end.

(** A query of the global. *)
Definition read {S A} (f : S → result A) : M S A := λ s, (f s, s).

(** Code that does not touch the global. *)
Definition lift {S A} (r : result A) : M S A := λ s, (r, s).

(** [try: body / except <catches>: handler] *)
Definition try_except {S A} (body : M S A) (catches : exn → bool)
    (handler : M S A) : M S A := λ s,
  match body s with
  | (Raise e, s') => if catches e then handler s' else (Raise e, s')
  | r => r
  end.

(** ** The collaborators' objects *)

(** A [PreProcessor] object, as far as the module reads and writes it. *)
Record PreProcessorObj : Type := {
  input : string;
  tokenized_sentence : list string;
  singularised_indices : list nat;
}.

(** Modelled from the spec: the [PostProcessor] class is in
    [ingredient_parser/en/postprocess.py], which is not among the sources.
    The result builder "consumes the sentence, final tokens, final labels,
    and final scores" and the three options, and keeps them for the debug
    capture; the object is the record of what the constructor was given. *)
Record PostProcessorObj : Type := {
  sentence : string;
  tokens : list string;
  labels : list string;
  scores : list float;
  discard_isolated_stop_words : bool;
  string_units : bool;
  imperial_units : bool;
}.

Record ParserDebugInfo (T : Type) : Type := {
  dbg_sentence : string;
  dbg_PreProcessor : PreProcessorObj;
  dbg_PostProcessor : PostProcessorObj;
  dbg_tagger : T;
}.
Arguments dbg_sentence {T} _.
Arguments dbg_PreProcessor {T} _.
Arguments dbg_PostProcessor {T} _.
Arguments dbg_tagger {T} _.

(** ** The module's functions *)

Section Parser.
Context (O : Oracle).

(** [as_file(files(__package__) / "model.en.crfsuite")] entered and
    converted with [str]: the path of the bundled model, or the failure of
    the resource lookup. *)
Variable model_file : result string.

(** [PreProcessor(sentence)], [processed_sentence.sentence_features()],
    [pluralise_units(token)] and [postprocessed_sentence.parsed]: code of
    the package outside this module. *)
Variable PreProcessor : string → result PreProcessorObj.
Variable sentence_features : PreProcessorObj → result (list (Features O)).
Variable pluralise_units : string → string.
Variable ParsedIngredient : Type.
Variable parsed : PostProcessorObj → result ParsedIngredient.

Definition load_model_if_not_loaded : M (Tagger O) unit :=
  try_except
    (read (info O))
    is_RuntimeError
    (p ← lift model_file; open O p).

Definition parse_ingredient_en (sentence : string)
    (discard_isolated_stop_words string_units imperial_units : bool)
    : M (Tagger O) ParsedIngredient :=
  load_model_if_not_loaded;;
  processed_sentence ← lift (PreProcessor sentence);
  let tokens := tokenized_sentence processed_sentence in
  features ← lift (sentence_features processed_sentence);
  labels ← tag O features;
  scores ← read (λ t,
    comprehension (λ p, marginal O (snd p) (fst p) t) (enumerate labels));
  tokens ← lift (for_in (singularised_indices processed_sentence)
    (λ idx tokens,
       token ← getitem tokens idx;
       label ← getitem labels idx;
       if decide (label ≠ "UNIT")
       then setitem tokens idx (pluralise_units token)
       else Ok tokens)
    tokens);
  guessed ←
    (if forallb (λ label, bool_decide (label ≠ "NAME")) labels
     then read (λ t, guess_ingredient_name O t labels scores)
     else mret (labels, scores));
  let postprocessed_sentence :=
    {| sentence := sentence;
       tokens := tokens;
       labels := fst guessed;
       scores := snd guessed;
       discard_isolated_stop_words := discard_isolated_stop_words;
       string_units := string_units;
       imperial_units := imperial_units |} in
  lift (parsed postprocessed_sentence).

(** The token list is the [PreProcessor] object's own list, so the object
    handed back in the debug bundle carries the re-pluralised tokens. *)
Definition inspect_parser_en (sentence : string)
    (discard_isolated_stop_words string_units imperial_units : bool)
    : M (Tagger O) (ParserDebugInfo (Tagger O)) :=
  load_model_if_not_loaded;;
  processed_sentence ← lift (PreProcessor sentence);
  let tokens := tokenized_sentence processed_sentence in
  features ← lift (sentence_features processed_sentence);
  labels ← tag O features;
  scores ← read (λ t,
    comprehension (λ p, marginal O (snd p) (fst p) t) (enumerate labels));
  tokens ← lift (for_in (singularised_indices processed_sentence)
    (λ idx tokens,
       token ← getitem tokens idx;
       label ← getitem labels idx;
       if decide (label ≠ "UNIT")
       then setitem tokens idx (pluralise_units token)
       else Ok tokens)
    tokens);
  let processed_sentence :=
    {| input := input processed_sentence;
       tokenized_sentence := tokens;
       singularised_indices := singularised_indices processed_sentence |} in
  guessed ←
    (if forallb (λ label, bool_decide (label ≠ "NAME")) labels
     then read (λ t, guess_ingredient_name O t labels scores)
     else mret (labels, scores));
  let postprocessed_sentence :=
    {| sentence := sentence;
       tokens := tokens;
       labels := fst guessed;
       scores := snd guessed;
       discard_isolated_stop_words := discard_isolated_stop_words;
       string_units := string_units;
       imperial_units := imperial_units |} in
  read (λ t, Ok {| dbg_sentence := sentence;
                   dbg_PreProcessor := processed_sentence;
                   dbg_PostProcessor := postprocessed_sentence;
                   dbg_tagger := t |}).
End Parser.

(** ** Vocabulary of the properties *)

(** Position [i] is a candidate: its name-confidence exists and passes the
    test [score >= 0.2]. *)
Definition candidate_at (name_scores : list float) (i : nat) : Prop :=
  ∃ c, name_scores !! i = Some c ∧ is_candidate c = true.

(** The same on the oracle: position [i] of [labels] has a name-confidence,
    and it is at least 0.2. *)
Definition name_candidate (O : Oracle) (t : Tagger O) (labels : list string)
    (i : nat) : Prop :=
  i < length labels ∧
  ∃ c, marginal O "NAME" i t = Ok c ∧ is_candidate c = true.

(** A name-confidence strictly below the threshold. *)
Definition below_threshold (c : float) : Prop := (c <? NAME_THRESHOLD)%float = true.

(** [run] is a maximal run of consecutive positions satisfying [cand]: the
    positions [a, a+1, ..., a+k], all of them satisfying [cand], with neither
    the position before [a] nor the position after [a+k] satisfying it. *)
Definition maximal_run (cand : nat → Prop) (run : list nat) : Prop :=
  ∃ a k,
    run = seq a (S k) ∧
    (∀ i, a ≤ i ≤ a + k → cand i) ∧
    (∀ b, S b = a → ¬ cand b) ∧
    ¬ cand (S (a + k)).

(** The run the code picks: [sorted(groups, key=len)[0]]. *)
Definition selected_run (name_scores : list float) : option (list nat) :=
  head (sorted length (group_consecutive_idx (candidate_indices name_scores))).

(** The body of the re-pluralisation loop of the two entry points, for the
    statements about it. *)
Local Abbreviation repluralise pluralise_units labels :=
  (λ (idx : nat) (tokens : list string),
     token ← getitem tokens idx;
     label ← getitem labels idx;
     if decide (label ≠ "UNIT")
     then setitem tokens idx (pluralise_units token)
     else Ok tokens).

(** [n] calls in a row, as [n] statements: the first exception ends them. *)
Fixpoint call_times {S} (n : nat) (f : M S unit) : M S unit :=
  match n with
  | 0 => mret ()
  | S n' => f;; call_times n' f
  end.

(** An oracle that counts the calls of [open]: the tagger is paired with the
    number of calls made so far. *)
Definition counting (O : Oracle) : Oracle := {|
  Tagger := Tagger O * nat;
  Features := Features O;
  info := λ t, info O (fst t);
  open := λ p t, let r := open O p (fst t) in (fst r, (snd r, S (snd t)));
  tag := λ fs t, let r := tag O fs (fst t) in (fst r, (snd r, snd t));
  marginal := λ l i t, marginal O l i (fst t);
|}.

(** ** A small oracle and collaborators to run the functions on *)

Module Fake.
(** The tagger: whether a model is open, and for each position of the
    current sequence the label the model assigns and its confidence that
    the position is a name. *)
Record tagger : Type := {
  loaded : bool;
  current : list (string * float);
}.

Definition oracle : Oracle := {|
  Tagger := tagger;
  Features := string * float;
  info := λ t, if loaded t then Ok () else Raise RuntimeError;
  open := λ p t, (Ok (), {| loaded := true; current := current t |});
  tag := λ fs t,
    if loaded t then (Ok (fst <$> fs), {| loaded := true; current := fs |})
    else (Raise RuntimeError, t);
  marginal := λ l i t,
    match current t !! i with
    | Some (_, c) => Ok (if decide (l = "NAME") then c else 0.9%float)
    | None => Raise (Exception "ValueError")
    end;
|}.

(** A tagger with a model open and the given name-confidences. *)
Definition with_names (cs : list float) : tagger :=
  {| loaded := true; current := (λ c, ("COMMENT", c)) <$> cs |}.

Definition unloaded : tagger := {| loaded := false; current := [] |}.

Definition model_file : result string := Ok "model.en.crfsuite".

(** "2 cups onions": the tokens as normalised, "cups" and "onions"
    singularised. *)
Definition PreProcessor (s : string) : result PreProcessorObj :=
  Ok {| input := s;
        tokenized_sentence := ["2"; "cup"; "onion"];
        singularised_indices := [1; 2] |}.

Definition sentence_features (p : PreProcessorObj)
    : result (list (string * float)) :=
  Ok [("QTY", 0.01%float); ("UNIT", 0.02%float); ("COMMENT", 0.4%float)].

Definition pluralise_units (s : string) : string := s +:+ "s".

Definition parsed (p : PostProcessorObj) : result PostProcessorObj := Ok p.
End Fake.

(** ** Callers and further inputs *)

(** [for x in l: f(x)] against the global, the results dropped: the first
    exception ends the loop. *)
Fixpoint each_call {S A B} (f : A → M S B) (l : list A) : M S unit :=
  match l with
  | [] => mret ()
  | x :: r => f x;; each_call f r
  end.

Module Sample.
(** A normaliser whose index list names a position past the tokens. *)
Definition PreProcessor_stale (s : string) : result PreProcessorObj :=
  Ok {| input := s;
        tokenized_sentence := ["2"; "cup"];
        singularised_indices := [1; 5] |}.

(** A normaliser that lists an index twice. *)
Definition PreProcessor_twice (s : string) : result PreProcessorObj :=
  Ok {| input := s;
        tokenized_sentence := ["2"; "cup"; "onion"];
        singularised_indices := [2; 2] |}.

(** Features on which the fake tagger assigns a name itself. *)
Definition sentence_features_named (p : PreProcessorObj)
    : result (list (string * float)) :=
  Ok [("QTY", 0.01%float); ("UNIT", 0.02%float); ("NAME", 0.95%float)].

(** An empty sentence: no tokens, no features. *)
Definition PreProcessor_empty (s : string) : result PreProcessorObj :=
  Ok {| input := s; tokenized_sentence := []; singularised_indices := [] |}.

Definition sentence_features_empty (p : PreProcessorObj)
    : result (list (string * float)) :=
  Ok [].
End Sample.

(** * Properties *)

(** ** Results, comprehensions and loops *)

Lemma result_bind_Ok {A B} (m : result A) (f : A → result B) (b : B) :
  m ≫= f = Ok b ↔ ∃ a, m = Ok a ∧ f a = Ok b.
Proof.
  destruct m as [a|e]; simpl; split.
  - intros H. by exists a.
  - by intros (a' & [= ->] & H).
  - done.
  - by intros (a' & Hm & _).
Qed.

Lemma enumerate_from_lookup {A} (l : list A) (s i : nat) :
  enumerate_from s l !! i = (λ x, (s + i, x)) <$> l !! i.
Proof.
  revert s i. induction l as [|x l IH]; intros s [|i]; simpl; try done.
  - by rewrite Nat.add_0_r.
  - rewrite IH. by replace (S s + i) with (s + S i) by lia.
Qed.

Lemma enumerate_from_length {A} (l : list A) (s : nat) :
  length (enumerate_from s l) = length l.
Proof. revert s. induction l as [|x l IH]; intros s; simpl; by rewrite ?IH. Qed.

Lemma elem_of_enumerate_from {A} (l : list A) (s : nat) (p : nat * A) :
  p ∈ enumerate_from s l ↔ ∃ j, p.1 = s + j ∧ l !! j = Some p.2.
Proof.
  rewrite list_elem_of_lookup. split.
  - intros [j Hj]. rewrite enumerate_from_lookup in Hj.
    destruct (l !! j) as [x|] eqn:E; simplify_eq/=. by exists j.
  - intros (j & H1 & H2). exists j. rewrite enumerate_from_lookup, H2.
    destruct p; simpl in *. by subst.
Qed.

Lemma comprehension_Ok {A B} (f : A → result B) (l : list A) (ys : list B) :
  comprehension f l = Ok ys ↔ Forall2 (λ x y, f x = Ok y) l ys.
Proof.
  revert ys. induction l as [|x l IH]; intros ys; simpl.
  - split; [intros [= <-]; constructor | by inversion 1].
  - rewrite result_bind_Ok. split.
    + intros (y & Hy & H). apply result_bind_Ok in H as (ys' & Hys & [= <-]).
      constructor; [done | by apply IH].
    + inversion 1 as [|? y ? ys' Hy Hys]; subst. exists y. split; [done|].
      apply result_bind_Ok. exists ys'. split; [by apply IH | done].
Qed.

Lemma comprehension_ext {A B} (f g : A → result B) (l : list A) :
  (∀ x, x ∈ l → f x = g x) → comprehension f l = comprehension g l.
Proof.
  induction l as [|x l IH]; intros H; simpl; [done|].
  rewrite (H x) by constructor. rewrite IH; [done|].
  intros y Hy. apply H. by constructor.
Qed.

Lemma for_in_cons {A S} (x : A) (r : list A) (body : A → S → result S)
    (s s' : S) :
  for_in (x :: r) body s = Ok s' ↔
  ∃ s1, body x s = Ok s1 ∧ for_in r body s1 = Ok s'.
Proof. simpl. apply result_bind_Ok. Qed.

(** What the comprehension over [enumerate(l)] leaves: one value per
    position, the one the element expression gave there. *)
Lemma comprehension_enumerate {A B} (f : nat * A → result B) (l : list A)
    (ys : list B) :
  comprehension f (enumerate l) = Ok ys →
  length ys = length l ∧
  ∀ i x, l !! i = Some x → ∃ y, ys !! i = Some y ∧ f (i, x) = Ok y.
Proof.
  intros H%comprehension_Ok. split.
  - apply Forall2_length in H. unfold enumerate in H.
    by rewrite enumerate_from_length in H.
  - intros i x Hx.
    assert (enumerate l !! i = Some (i, x)) as Hi.
    { unfold enumerate. by rewrite enumerate_from_lookup, Hx. }
    destruct (Forall2_lookup_l _ _ _ _ _ H Hi) as (y & Hy & Hf). eauto.
Qed.

(** ** The candidate positions *)

Lemma elem_of_candidates_from (ns : list float) (s i : nat) :
  i ∈ fst <$> List.filter (λ p, is_candidate (snd p)) (enumerate_from s ns) ↔
  ∃ j c, i = s + j ∧ ns !! j = Some c ∧ is_candidate c = true.
Proof.
  rewrite list_elem_of_fmap. split.
  - intros ([i' c] & -> & Hin). apply list_elem_of_In, filter_In in Hin as [Hin Hc].
    apply list_elem_of_In, elem_of_enumerate_from in Hin as (j & ? & ?).
    simpl in *. eauto.
  - intros (j & c & -> & Hj & Hc). exists (s + j, c). split; [done|].
    apply list_elem_of_In, filter_In. split; [|done].
    apply list_elem_of_In, elem_of_enumerate_from. by exists j.
Qed.

Lemma candidates_from_sorted (ns : list float) (s : nat) :
  StronglySorted lt
    (fst <$> List.filter (λ p, is_candidate (snd p)) (enumerate_from s ns)).
Proof.
  revert s. induction ns as [|c ns IH]; intros s; simpl; [constructor|].
  destruct (is_candidate c); simpl; [|apply IH].
  constructor; [apply IH|]. apply Forall_forall. intros i Hi.
  apply elem_of_candidates_from in Hi as (j & ? & -> & _). lia.
Qed.

Lemma elem_of_candidate_indices (ns : list float) (i : nat) :
  i ∈ candidate_indices ns ↔ candidate_at ns i.
Proof.
  unfold candidate_indices, enumerate, candidate_at.
  rewrite elem_of_candidates_from. split.
  - intros (j & c & -> & ? & ?). eauto.
  - intros (c & ? & ?). exists i, c. eauto.
Qed.

Lemma candidate_indices_sorted (ns : list float) :
  StronglySorted lt (candidate_indices ns).
Proof. apply candidates_from_sorted. Qed.

Lemma candidate_indices_lt (ns : list float) (i : nat) :
  i ∈ candidate_indices ns → i < length ns.
Proof.
  intros (c & Hc & _)%elem_of_candidate_indices. by eapply lookup_lt_Some.
Qed.

(** ** Grouping into runs *)

(** Every position of the first group lies at least two below every position
    of the second. *)
Definition gap (g1 g2 : list nat) : Prop := ∀ x y, x ∈ g1 → y ∈ g2 → S x < y.

Definition is_run (g : list nat) : Prop := ∃ a k, g = seq a (S k).

Lemma group_concat (l : list nat) : concat (group_consecutive_idx l) = l.
Proof.
  induction l as [|i rest IH]; simpl; [done|].
  destruct (group_consecutive_idx rest) as [|[|j g] gs]; simpl in *;
    try case_decide; simpl; by rewrite <- IH.
Qed.

Lemma group_runs (l : list nat) : Forall is_run (group_consecutive_idx l).
Proof.
  induction l as [|i rest IH]; simpl; [constructor|].
  destruct (group_consecutive_idx rest) as [|[|j g] gs].
  - constructor; [by exists i, 0 | constructor].
  - inversion IH as [|? ? (a & k & Hnil) _]; subst. discriminate.
  - inversion IH as [|? ? (a & k & Hrun) Hgs]; subst.
    simpl in Hrun. injection Hrun as -> ->.
    case_decide as Hj.
    + subst. constructor; [by exists i, (S k) | done].
    + constructor; [by exists i, 0|]. constructor; [by exists a, k | done].
Qed.

Lemma elem_of_group (l : list nat) (g : list nat) (x : nat) :
  g ∈ group_consecutive_idx l → x ∈ g → x ∈ l.
Proof.
  intros Hg Hx. rewrite <- (group_concat l).
  apply list_elem_of_In, in_concat. exists g.
  split; by apply list_elem_of_In.
Qed.

Lemma elem_of_group_inv (l : list nat) (x : nat) :
  x ∈ l → ∃ g, g ∈ group_consecutive_idx l ∧ x ∈ g.
Proof.
  rewrite <- (group_concat l) at 1.
  intros (g & Hg & Hx)%list_elem_of_In%in_concat.
  exists g. split; by apply list_elem_of_In.
Qed.

Lemma group_gaps (l : list nat) :
  StronglySorted lt l → StronglySorted gap (group_consecutive_idx l).
Proof.
  induction 1 as [|i rest Hrest IH Hlt]; simpl; [constructor|].
  pose proof (group_concat rest) as Hcat.
  pose proof (group_runs rest) as Hruns.
  pose proof (@elem_of_group rest) as Hin.
  rewrite Forall_forall in Hlt.
  destruct (group_consecutive_idx rest) as [|[|j g] gs].
  - repeat constructor.
  - inversion Hruns as [|? ? (a & k & Hnil) _]; subst. discriminate.
  - apply StronglySorted_cons in IH as [Hgap Hgs].
    rewrite Forall_forall in Hgap.
    simpl in Hcat. subst rest.
    assert (i < j) as Hij by (apply Hlt; by left).
    apply StronglySorted_cons in Hrest as [Hjlt _].
    rewrite Forall_forall in Hjlt.
    case_decide as Hj.
    + subst j. apply StronglySorted_cons. split; [|done].
      apply Forall_forall. intros g2 Hg2 x y Hx Hy.
      apply elem_of_cons in Hx as [->|Hx].
      * assert (S (S i) < y); [|lia].
        eapply Hgap; [done | by left | done].
      * by eapply Hgap.
    + apply StronglySorted_cons. split.
      2: { apply StronglySorted_cons. split; [by apply Forall_forall | done]. }
      apply Forall_forall. intros g2 Hg2 x y Hx Hy.
      apply list_elem_of_singleton in Hx as ->.
      assert (j ≤ y); [|lia].
      assert (y ∈ j :: g ++ concat gs) as Hyr by eauto.
      apply elem_of_cons in Hyr as [->|Hyr]; [done|].
      apply Hjlt in Hyr. lia.
Qed.

Lemma StronglySorted_elem_of {A} (R : relation A) (l : list A) (x y : A) :
  StronglySorted R l → x ∈ l → y ∈ l → x = y ∨ R x y ∨ R y x.
Proof.
  induction 1 as [|z l Hl IH Hz]; intros Hx Hy.
  - by apply elem_of_nil in Hx.
  - rewrite Forall_forall in Hz.
    apply elem_of_cons in Hx as [->|Hx], Hy as [->|Hy]; auto.
Qed.

(** The groups of a strictly increasing list are exactly the maximal runs of
    consecutive positions of the list. *)
Lemma group_maximal (l g : list nat) :
  StronglySorted lt l → g ∈ group_consecutive_idx l → maximal_run (.∈ l) g.
Proof.
  intros Hl Hg.
  pose proof (group_gaps l Hl) as Hgaps.
  pose proof (group_runs l) as Hruns.
  rewrite Forall_forall in Hruns.
  destruct (Hruns g Hg) as (a & k & ->).
  assert (∀ x, x ∈ l → ¬ a ≤ x ≤ a + k → S x < a ∨ S (a + k) < x) as Hout.
  { intros x (g' & Hg' & Hx)%elem_of_group_inv Hnot.
    destruct (StronglySorted_elem_of gap _ g' (seq a (S k)) Hgaps Hg' Hg)
      as [->|[Hgap|Hgap]].
    - apply elem_of_seq in Hx. lia.
    - left. apply (Hgap x a); [done|]. apply elem_of_seq. lia.
    - right. apply (Hgap (a + k) x); [|done]. apply elem_of_seq. lia. }
  exists a, k. split; [done|]. split; [|split].
  - intros i Hi. apply (elem_of_group l (seq a (S k))); [done|].
    apply elem_of_seq. lia.
  - intros b <- Hb. apply Hout in Hb; lia.
  - intros Hb. apply Hout in Hb; lia.
Qed.

Lemma maximal_group (l g : list nat) :
  StronglySorted lt l → maximal_run (.∈ l) g → g ∈ group_consecutive_idx l.
Proof.
  intros Hl (a & k & -> & Hall & Hbefore & Hafter).
  destruct (elem_of_group_inv l a) as (g' & Hg' & Ha); [apply Hall; lia|].
  destruct (group_maximal l g' Hl Hg')
    as (a' & k' & -> & Hall' & Hbefore' & Hafter').
  apply elem_of_seq in Ha.
  assert (a' = a) as ->.
  { destruct (decide (a' = a)) as [|Hne]; [done|]. exfalso.
    destruct a as [|b]; [lia|]. apply (Hbefore b); [done|]. apply Hall'. lia. }
  assert (k' = k) as ->; [|done].
  destruct (decide (k' < k)).
  { exfalso. apply Hafter'. apply Hall. lia. }
  destruct (decide (k < k')); [|lia].
  exfalso. apply Hafter. apply Hall'. lia.
Qed.

Lemma maximal_run_ext (P Q : nat → Prop) (g : list nat) :
  (∀ i, P i ↔ Q i) → maximal_run P g → maximal_run Q g.
Proof.
  intros HPQ (a & k & -> & Hall & Hbefore & Hafter). exists a, k.
  split; [done|]. split; [|split].
  - intros i Hi. by apply HPQ, Hall.
  - intros b Hb HQ. by apply (Hbefore b Hb), HPQ.
  - intros HQ. by apply Hafter, HPQ.
Qed.

(** The groups the code forms are the maximal runs of candidate positions. *)
Lemma groups_are_maximal_runs (ns : list float) (g : list nat) :
  g ∈ group_consecutive_idx (candidate_indices ns) ↔
  maximal_run (candidate_at ns) g.
Proof.
  pose proof (candidate_indices_sorted ns) as Hs. split.
  - intros Hg. eapply maximal_run_ext; [|by apply group_maximal].
    intros i. apply elem_of_candidate_indices.
  - intros Hg. apply maximal_group; [done|].
    eapply maximal_run_ext; [|done].
    intros i. symmetry. apply elem_of_candidate_indices.
Qed.

(** ** The stable sort and its first element *)

Lemma head_insert_by {A} (key : A → nat) (x : A) (l : list A) :
  head (insert_by key x l) =
  Some (match head l with
        | Some y => if decide (key x ≤ key y) then x else y
        | None => x
        end).
Proof. destruct l as [|y r]; simpl; [done|]. by case_decide. Qed.

(** The first element of the sorted list is the first element of least key
    of the list: the ones before it have a greater key, the ones after it a
    key at least as great. *)
Lemma head_sorted {A} (key : A → nat) (l : list A) (x : A) :
  head (sorted key l) = Some x →
  ∃ pre post, l = pre ++ x :: post ∧
    Forall (λ y, key x < key y) pre ∧ Forall (λ y, key x ≤ key y) post.
Proof.
  revert x. induction l as [|z l IH]; intros x; simpl; [done|].
  rewrite head_insert_by.
  destruct (head (sorted key l)) as [y|] eqn:Ey.
  - destruct (IH y eq_refl) as (pre & post & -> & Hpre & Hpost).
    case_decide as Hle; intros [= <-].
    + exists [], (pre ++ y :: post). split; [done|]. split; [constructor|].
      apply Forall_app. split.
      * eapply Forall_impl; [exact Hpre|]. simpl. lia.
      * constructor; [done|]. eapply Forall_impl; [exact Hpost|]. simpl. lia.
    + exists (z :: pre), post. split; [done|]. split; [|done].
      constructor; [lia | done].
  - intros [= <-]. destruct l as [|w l]; [by exists [], []|].
    simpl in Ey. rewrite head_insert_by in Ey. discriminate.
Qed.

Lemma head_sorted_is_Some {A} (key : A → nat) (l : list A) :
  l ≠ [] → is_Some (head (sorted key l)).
Proof. destruct l as [|z l]; [done|]. simpl. rewrite head_insert_by. eauto. Qed.

(** ** The selected run *)

Lemma selected_run_is_Some (ns : list float) :
  candidate_indices ns ≠ [] → is_Some (selected_run ns).
Proof.
  intros Hne. apply head_sorted_is_Some. intros Hnil.
  apply Hne. by rewrite <- (group_concat (candidate_indices ns)), Hnil.
Qed.

Lemma selected_run_spec (ns : list float) (run : list nat) :
  selected_run ns = Some run →
  maximal_run (candidate_at ns) run ∧
  ∀ g, maximal_run (candidate_at ns) g →
    length run ≤ length g ∧
    (length g = length run →
     ∀ a b, head run = Some a → head g = Some b → a ≤ b).
Proof.
  intros (pre & post & Hgroups & Hpre & Hpost)%head_sorted.
  pose proof (group_gaps _ (candidate_indices_sorted ns)) as Hgaps.
  rewrite Hgroups in Hgaps.
  rewrite Forall_forall in Hpre. rewrite Forall_forall in Hpost.
  split.
  - apply groups_are_maximal_runs. rewrite Hgroups.
    apply elem_of_app. right. by left.
  - intros g Hg%groups_are_maximal_runs. rewrite Hgroups in Hg.
    apply elem_of_app in Hg as [Hg|Hg].
    { apply Hpre in Hg. split; lia. }
    apply elem_of_cons in Hg as [->|Hg].
    { split; [done|]. intros _ a b Ha Hb. by simplify_eq. }
    split; [by apply Hpost|]. intros _ a b Ha Hb.
    apply StronglySorted_app_1_r, StronglySorted_cons in Hgaps as [Hrun _].
    rewrite Forall_forall in Hrun.
    assert (S a < b); [|lia]. apply (Hrun g Hg).
    + destruct run; simplify_eq/=. by left.
    + destruct g; simplify_eq/=. by left.
Qed.

Lemma selected_run_bound (ns : list float) (run : list nat) (i : nat) :
  selected_run ns = Some run → i ∈ run → i < length ns.
Proof.
  intros (pre & post & Hgroups & _)%head_sorted Hi.
  apply candidate_indices_lt, (elem_of_group _ run); [|done].
  rewrite Hgroups. apply elem_of_app. right. by left.
Qed.

Lemma selected_run_nonempty (ns : list float) (run : list nat) :
  selected_run ns = Some run → run ≠ [].
Proof.
  intros [(a & k & -> & _) _]%selected_run_spec. done.
Qed.

(** ** The assignment loop *)

Lemma assign_name_Ok (ns : list float) (i : nat) (l l' : list string)
    (s s' : list float) :
  assign_name ns i (l, s) = Ok (l', s') ↔
  i < length l ∧ i < length s ∧
  ∃ c, ns !! i = Some c ∧ l' = <[i:="NAME"]> l ∧ s' = <[i:=c]> s.
Proof.
  unfold assign_name, setitem, getitem. simpl.
  destruct (decide (i < length l)); simpl; [|split; [done | lia]].
  destruct (ns !! i) as [c|]; simpl.
  2: { split; [done|]. by intros (_ & _ & c & ? & _). }
  destruct (decide (i < length s)); simpl; [|split; [done | lia]].
  split.
  - intros [= <- <-]. eauto 10.
  - intros (_ & _ & c' & [= <-] & -> & ->). done.
Qed.

(** A completed loop wrote ["NAME"] and the name-confidence at the positions
    of the run and nothing anywhere else. *)
Lemma assign_names_Ok (ns : list float) (run : list nat) (l l' : list string)
    (s s' : list float) :
  for_in run (assign_name ns) (l, s) = Ok (l', s') →
  length l' = length l ∧ length s' = length s ∧
  (∀ i, i ∈ run → l' !! i = Some "NAME" ∧ s' !! i = ns !! i) ∧
  (∀ i, i ∉ run → l' !! i = l !! i ∧ s' !! i = s !! i).
Proof.
  revert l s. induction run as [|j run IH]; intros l s; simpl.
  - intros [= <- <-]. split; [done|]. split; [done|]. split; [|done].
    intros i Hi. by apply elem_of_nil in Hi.
  - intros ([l1 s1] & Hstep & Hrest)%result_bind_Ok.
    apply assign_name_Ok in Hstep as (Hl & Hs & c & Hc & -> & ->).
    destruct (IH _ _ Hrest) as (Hlen1 & Hlen2 & Hin & Hout).
    rewrite length_insert in Hlen1. rewrite length_insert in Hlen2.
    split; [done|]. split; [done|]. split.
    + intros i Hi. destruct (decide (i ∈ run)) as [|Hnot]; [by apply Hin|].
      apply elem_of_cons in Hi as [->|]; [|done].
      destruct (Hout j Hnot) as [-> ->].
      by rewrite !list_lookup_insert_eq, Hc.
    + intros i Hi. apply not_elem_of_cons in Hi as [Hne Hnot].
      destruct (Hout i Hnot) as [-> ->].
      by rewrite !list_lookup_insert_ne.
Qed.

(** The loop completes when the run lies inside the three lists. *)
Lemma assign_names_total (ns : list float) (run : list nat) (l : list string)
    (s : list float) :
  Forall (λ i, i < length l ∧ i < length s ∧ i < length ns) run →
  ∃ l' s', for_in run (assign_name ns) (l, s) = Ok (l', s').
Proof.
  revert l s. induction run as [|j run IH]; intros l s Hrun; simpl; [eauto|].
  apply Forall_cons in Hrun as [(Hl & Hs & Hns) Hrun].
  destruct (lookup_lt_is_Some_2 ns j Hns) as [c Hc].
  assert (assign_name ns j (l, s) = Ok (<[j:="NAME"]> l, <[j:=c]> s)) as ->.
  { apply assign_name_Ok. eauto 10. }
  simpl. apply IH. eapply Forall_impl; [exact Hrun|].
  intros i. by rewrite !length_insert.
Qed.

(** ** guess_ingredient_name *)

Lemma name_scores_length (O : Oracle) (t : Tagger O) (labels : list string)
    (ns : list float) :
  name_scores_of O t labels = Ok ns → length ns = length labels.
Proof. intros H. by apply comprehension_enumerate in H as [? _]. Qed.

(** With candidates, the call is the assignment loop over the selected run. *)
Lemma guess_selected (O : Oracle) (t : Tagger O) (labels : list string)
    (scores ns : list float) :
  name_scores_of O t labels = Ok ns →
  candidate_indices ns ≠ [] →
  ∃ run, selected_run ns = Some run ∧
    guess_ingredient_name O t labels scores =
    for_in run (assign_name ns) (labels, scores).
Proof.
  intros Hns Hne. unfold guess_ingredient_name. rewrite Hns. simpl.
  case_decide as Hlen.
  { destruct (candidate_indices ns); [done | discriminate]. }
  destruct (selected_run_is_Some ns Hne) as [run Hrun]. exists run.
  split; [done|]. unfold selected_run in Hrun. unfold getitem.
  rewrite <- head_lookup, Hrun. done.
Qed.

(** Without candidates, the call returns its arguments. *)
Lemma guess_no_candidates (O : Oracle) (t : Tagger O) (labels : list string)
    (scores ns : list float) :
  name_scores_of O t labels = Ok ns →
  candidate_indices ns = [] →
  guess_ingredient_name O t labels scores = Ok (labels, scores).
Proof.
  intros Hns Hnil. unfold guess_ingredient_name. rewrite Hns. simpl.
  rewrite Hnil. done.
Qed.

(** ** Floats below the threshold *)

Lemma SFcompare_Lt_Gt (x y : spec_float) :
  SFcompare x y = Some Lt → SFcompare y x = Some Gt.
Proof.
  destruct x as [[]|[]| |[] m1 e1], y as [[]|[]| |[] m2 e2];
    simpl; try congruence.
  all: rewrite (Z.compare_antisym e1 e2);
    destruct (e1 ?= e2)%Z; simpl; try congruence.
  all: pose proof (Pos.compare_cont_antisym m1 m2 Eq) as Hanti;
    simpl in Hanti; rewrite <- Hanti;
    destruct (Pos.compare_cont Eq m1 m2); simpl; congruence.
Qed.

(** A confidence strictly below the threshold fails [score >= 0.2]. *)
Lemma below_threshold_not_candidate (c : float) :
  below_threshold c → is_candidate c = false.
Proof.
  unfold below_threshold, is_candidate. rewrite ltb_spec, leb_spec.
  unfold SFltb, SFleb.
  destruct (SFcompare (Prim2SF c) (Prim2SF NAME_THRESHOLD)) as [[]|] eqn:E;
    try discriminate.
  intros _. by rewrite (SFcompare_Lt_Gt _ _ E).
Qed.

Lemma no_candidates_below (ns : list float) :
  Forall below_threshold ns → candidate_indices ns = [].
Proof.
  intros Hall. apply elem_of_nil_inv. intros i Hi.
  apply elem_of_candidate_indices in Hi as (c & Hc & Hcand).
  rewrite Forall_forall in Hall.
  rewrite below_threshold_not_candidate in Hcand; [done|].
  apply Hall. by eapply list_elem_of_lookup_2.
Qed.

(** ** The claims on guess_ingredient_name *)

(** C7. When the name-confidence of every position is below 0.2, the call
    returns the labels and scores it was given, whatever their lengths; on an
    empty labels list it returns the empty list and the scores, with no
    assumption on the oracle. *)
Theorem guess_ingredient_name_no_candidates (O : Oracle) (t : Tagger O)
    (labels : list string) (scores ns : list float) :
  name_scores_of O t labels = Ok ns →
  Forall below_threshold ns →
  guess_ingredient_name O t labels scores = Ok (labels, scores) ∧
  guess_ingredient_name O t [] scores = Ok ([], scores).
Proof.
  intros Hns Hbelow. split; [|done].
  eapply guess_no_candidates; [done|]. by apply no_candidates_below.
Qed.

Lemma guess_ingredient_name_no_candidates_witness :
  let t := Fake.with_names [0.05; 0.1; 0.19]%float in
  let labels := ["QTY"; "UNIT"; "COMMENT"] in
  let scores := [0.9; 0.8; 0.7]%float in
  guess_ingredient_name Fake.oracle t labels scores = Ok (labels, scores) ∧
  guess_ingredient_name Fake.oracle t [] scores = Ok ([], scores).
Proof.
  apply (guess_ingredient_name_no_candidates Fake.oracle
           (Fake.with_names [0.05; 0.1; 0.19]%float)
           ["QTY"; "UNIT"; "COMMENT"] [0.9; 0.8; 0.7]%float
           [0.05; 0.1; 0.19]%float).
  - reflexivity.
  - repeat constructor.
Defined.

(** C6. With name-confidences 0.05, 0.25, 0.3 and 0.1, the call labels
    positions 1 and 2 ["NAME"], gives them the scores 0.25 and 0.3, and
    leaves the labels and scores of positions 0 and 3 as they were. *)
Theorem guess_ingredient_name_threshold_example (O : Oracle) (t : Tagger O)
    (l0 l1 l2 l3 : string) (s0 s1 s2 s3 : float) :
  name_scores_of O t [l0; l1; l2; l3] = Ok [0.05; 0.25; 0.3; 0.1]%float →
  guess_ingredient_name O t [l0; l1; l2; l3] [s0; s1; s2; s3] =
  Ok ([l0; "NAME"; "NAME"; l3], [s0; 0.25; 0.3; s3]%float).
Proof.
  intros Hns. unfold guess_ingredient_name. rewrite Hns. simpl.
  replace (candidate_indices [0.05; 0.25; 0.3; 0.1]%float) with [1; 2]
    by (vm_compute; reflexivity).
  reflexivity.
Qed.

Lemma guess_ingredient_name_threshold_example_witness :
  guess_ingredient_name Fake.oracle
    (Fake.with_names [0.05; 0.25; 0.3; 0.1]%float)
    ["QTY"; "UNIT"; "COMMENT"; "PREP"] [0.9; 0.8; 0.7; 0.6]%float =
  Ok (["QTY"; "NAME"; "NAME"; "PREP"], [0.9; 0.25; 0.3; 0.6]%float).
Proof.
  apply (guess_ingredient_name_threshold_example Fake.oracle).
  reflexivity.
Defined.

Lemma candidate_at_marginal (O : Oracle) (t : Tagger O) (labels : list string)
    (ns : list float) (i : nat) :
  name_scores_of O t labels = Ok ns →
  candidate_at ns i ↔ name_candidate O t labels i.
Proof.
  intros [Hlen Hat]%comprehension_enumerate. split.
  - intros (c & Hc & Hcand).
    assert (i < length labels) as Hi.
    { rewrite <- Hlen. by eapply lookup_lt_Some. }
    split; [done|].
    destruct (lookup_lt_is_Some_2 labels i Hi) as [x Hx].
    destruct (Hat i x Hx) as (y & Hy & Hm). simpl in Hm.
    exists c. split; [congruence | done].
  - intros (Hi & c & Hm & Hcand).
    destruct (lookup_lt_is_Some_2 labels i Hi) as [x Hx].
    destruct (Hat i x Hx) as (y & Hy & Hm'). simpl in Hm'.
    exists c. split; [congruence | done].
Qed.

Lemma guess_returns (O : Oracle) (t : Tagger O) (labels : list string)
    (scores ns : list float) (run : list nat) :
  name_scores_of O t labels = Ok ns →
  selected_run ns = Some run →
  length labels ≤ length scores →
  ∃ l' s', for_in run (assign_name ns) (labels, scores) = Ok (l', s').
Proof.
  intros Hns Hrun Hlen. apply assign_names_total, Forall_forall.
  intros i Hi. pose proof (selected_run_bound ns run i Hrun Hi).
  apply name_scores_length in Hns. lia.
Qed.

(** C2. With a candidate, the run the call selects is a maximal run of
    consecutive candidate positions; no maximal run is shorter, and among the
    maximal runs of its length it is the one that starts first.  The call is
    the assignment loop over that run, and with a score for every label it
    returns, with ["NAME"] and the name-confidence at the positions of the
    run. *)
Theorem guess_ingredient_name_selects_shortest_run (O : Oracle)
    (t : Tagger O) (labels : list string) (scores ns : list float) :
  name_scores_of O t labels = Ok ns →
  candidate_indices ns ≠ [] →
  ∃ run,
    selected_run ns = Some run ∧
    maximal_run (name_candidate O t labels) run ∧
    (∀ g, maximal_run (name_candidate O t labels) g →
       length run ≤ length g ∧
       (length g = length run →
        ∀ a b, head run = Some a → head g = Some b → a ≤ b)) ∧
    guess_ingredient_name O t labels scores =
      for_in run (assign_name ns) (labels, scores) ∧
    (length labels ≤ length scores →
     ∃ l' s',
       guess_ingredient_name O t labels scores = Ok (l', s') ∧
       ∀ i, i ∈ run → l' !! i = Some "NAME" ∧ s' !! i = ns !! i).
Proof.
  intros Hns Hne.
  destruct (guess_selected O t labels scores ns Hns Hne) as (run & Hrun & Hg).
  destruct (selected_run_spec ns run Hrun) as [Hmax Hmin].
  pose proof (λ i, candidate_at_marginal O t labels ns i Hns) as Hcand.
  exists run. split; [done|]. split; [by eapply maximal_run_ext|].
  split; [|split; [done|]].
  - intros g Hgmax. apply Hmin. eapply maximal_run_ext; [|done].
    intros i. symmetry. apply Hcand.
  - intros Hlen.
    destruct (guess_returns O t labels scores ns run Hns Hrun Hlen)
      as (l' & s' & Hloop).
    exists l', s'. split; [congruence|].
    by apply assign_names_Ok in Hloop as (_ & _ & Hin & _).
Qed.

Lemma guess_ingredient_name_selects_shortest_run_witness :
  ∃ run,
    selected_run [0.3; 0.1; 0.4; 0.5]%float = Some run ∧
    maximal_run
      (name_candidate Fake.oracle
         (Fake.with_names [0.3; 0.1; 0.4; 0.5]%float)
         ["COMMENT"; "COMMENT"; "COMMENT"; "COMMENT"]) run.
Proof.
  destruct (guess_ingredient_name_selects_shortest_run Fake.oracle
              (Fake.with_names [0.3; 0.1; 0.4; 0.5]%float)
              ["COMMENT"; "COMMENT"; "COMMENT"; "COMMENT"]
              [0.9; 0.9; 0.9; 0.9]%float
              [0.3; 0.1; 0.4; 0.5]%float)
    as (run & Hrun & Hmax & _).
  - reflexivity.
  - vm_compute. discriminate.
  - exists run. split; [exact Hrun | exact Hmax].
Defined.

(** C8. With a candidate, a call that is given a score for every label
    returns, and whenever the call returns, the two lists have the lengths
    they had and every position outside the selected run has the label and
    the score it had. *)
Theorem guess_ingredient_name_frame (O : Oracle) (t : Tagger O)
    (labels : list string) (scores ns : list float) :
  name_scores_of O t labels = Ok ns →
  candidate_indices ns ≠ [] →
  ∃ run,
    selected_run ns = Some run ∧
    (length labels ≤ length scores →
     ∃ l' s', guess_ingredient_name O t labels scores = Ok (l', s')) ∧
    (∀ l' s',
       guess_ingredient_name O t labels scores = Ok (l', s') →
       length l' = length labels ∧ length s' = length scores ∧
       ∀ i, i ∉ run → l' !! i = labels !! i ∧ s' !! i = scores !! i).
Proof.
  intros Hns Hne.
  destruct (guess_selected O t labels scores ns Hns Hne) as (run & Hrun & Hg).
  exists run. split; [done|]. rewrite Hg. split.
  - intros Hlen. by eapply guess_returns.
  - intros l' s' Hloop.
    by apply assign_names_Ok in Hloop as (? & ? & _ & ?).
Qed.

Lemma guess_ingredient_name_frame_witness :
  ∃ run,
    selected_run [0.05; 0.25; 0.3; 0.1]%float = Some run ∧
    ∃ l' s',
      guess_ingredient_name Fake.oracle
        (Fake.with_names [0.05; 0.25; 0.3; 0.1]%float)
        ["QTY"; "UNIT"; "COMMENT"; "PREP"] [0.9; 0.8; 0.7; 0.6]%float =
      Ok (l', s').
Proof.
  destruct (guess_ingredient_name_frame Fake.oracle
              (Fake.with_names [0.05; 0.25; 0.3; 0.1]%float)
              ["QTY"; "UNIT"; "COMMENT"; "PREP"] [0.9; 0.8; 0.7; 0.6]%float
              [0.05; 0.25; 0.3; 0.1]%float)
    as (run & Hrun & Hret & _).
  - reflexivity.
  - vm_compute. discriminate.
  - exists run. split; [exact Hrun|]. apply Hret. simpl. lia.
Defined.

(** C1, evaluated.  Name-confidences 0.3, 0.1, 0.4 and 0.5 give two maximal
    runs of candidates, position 0 alone and positions 2 and 3.  The call
    renames position 0, the shorter run, and leaves the longer run as it
    was. *)
Theorem guess_ingredient_name_takes_shorter_run :
  let ns := [0.3; 0.1; 0.4; 0.5]%float in
  let labels := ["COMMENT"; "COMMENT"; "COMMENT"; "COMMENT"] in
  let scores := [0.9; 0.9; 0.9; 0.9]%float in
  name_scores_of Fake.oracle (Fake.with_names ns) labels = Ok ns ∧
  maximal_run (candidate_at ns) [0] ∧
  maximal_run (candidate_at ns) [2; 3] ∧
  guess_ingredient_name Fake.oracle (Fake.with_names ns) labels scores =
  Ok (["NAME"; "COMMENT"; "COMMENT"; "COMMENT"], [0.3; 0.9; 0.9; 0.9]%float).
Proof.
  intros ns labels scores. split; [reflexivity|].
  assert (group_consecutive_idx (candidate_indices ns) = [[0]; [2; 3]])
    as Hgroups by (vm_compute; reflexivity).
  split; [|split].
  - apply groups_are_maximal_runs. rewrite Hgroups. by left.
  - apply groups_are_maximal_runs. rewrite Hgroups. right. by left.
  - vm_compute. reflexivity.
Qed.

(** C10, refuted as stated: two calls with the same labels and the same
    scores return different pairs when the tagger's name-confidences
    differ. *)
Lemma guess_ingredient_name_reads_tagger :
  ¬ (∀ (O : Oracle) (t1 t2 : Tagger O) (labels : list string)
       (scores : list float),
       guess_ingredient_name O t1 labels scores =
       guess_ingredient_name O t2 labels scores).
Proof.
  intros H.
  specialize (H Fake.oracle (Fake.with_names [0.5%float])
                (Fake.with_names [0.1%float]) ["COMMENT"] [0.9%float]).
  vm_compute in H. discriminate H.
Qed.

(** C10, amended.  The returned pair is a function of the labels, the scores
    and the tagger's name-confidences at the positions of the labels: two
    calls that agree on these return the same. *)
Theorem guess_ingredient_name_deterministic (O : Oracle) (t1 t2 : Tagger O)
    (labels : list string) (scores : list float) :
  (∀ i, i < length labels →
     marginal O "NAME" i t1 = marginal O "NAME" i t2) →
  guess_ingredient_name O t1 labels scores =
  guess_ingredient_name O t2 labels scores.
Proof.
  intros Hsame. unfold guess_ingredient_name.
  assert (name_scores_of O t1 labels = name_scores_of O t2 labels) as ->;
    [|done].
  apply comprehension_ext. intros [i x] Hin. simpl. apply Hsame.
  apply elem_of_enumerate_from in Hin as (j & Hi & Hj). simpl in *.
  subst i. by eapply lookup_lt_Some.
Qed.

Lemma guess_ingredient_name_deterministic_witness :
  guess_ingredient_name Fake.oracle
    {| Fake.loaded := true; Fake.current := [("QTY", 0.5%float)] |}
    ["QTY"] [0.9%float] =
  guess_ingredient_name Fake.oracle
    {| Fake.loaded := false; Fake.current := [("UNIT", 0.5%float)] |}
    ["QTY"] [0.9%float].
Proof.
  apply (guess_ingredient_name_deterministic Fake.oracle).
  intros i Hi. destruct i as [|i]; [reflexivity | simpl in Hi; lia].
Defined.

(** ** load_model_if_not_loaded *)

Section Load.
Context (O : Oracle) (model_file : result string).

Lemma load_ready (t : Tagger O) :
  info O t = Ok () → load_model_if_not_loaded O model_file t = (Ok (), t).
Proof.
  intros H. unfold load_model_if_not_loaded, try_except, read. by rewrite H.
Qed.

Lemma load_not_loaded (t : Tagger O) (e : exn) :
  info O t = Raise e → is_RuntimeError e = true →
  load_model_if_not_loaded O model_file t =
  match model_file with
  | Ok p => open O p t
  | Raise e' => (Raise e', t)
  end.
Proof.
  intros H He. unfold load_model_if_not_loaded, try_except, read.
  rewrite H, He. unfold mbind, M_bind, lift. by destruct model_file.
Qed.

Lemma load_fatal (t : Tagger O) (e : exn) :
  info O t = Raise e → is_RuntimeError e = false →
  load_model_if_not_loaded O model_file t = (Raise e, t).
Proof.
  intros H He. unfold load_model_if_not_loaded, try_except, read.
  by rewrite H, He.
Qed.

End Load.

(** On a tagger that answers [info], any number of calls change nothing. *)
Lemma call_times_ready (O : Oracle) (model_file : result string) (n : nat)
    (t : Tagger O) :
  info O t = Ok () →
  call_times n (load_model_if_not_loaded O model_file) t = (Ok (), t).
Proof.
  intros H. induction n as [|n IH]; simpl; [done|].
  unfold mbind, M_bind. rewrite load_ready; [|done]. exact IH.
Qed.

(** C5.  Assume a tagger on which [open] has returned answers [info].
    A call on a tagger that answers [info] returns at once and leaves the
    tagger as it is; a call whose probe raises [RuntimeError] is the load
    (the lookup of the model file, then [open]), whose exceptions are the
    call's; a call whose probe raises anything but [RuntimeError] raises it
    and leaves the tagger as it is.  A call after a call that returned
    changes nothing.  One call calls [open] once when the probe raises
    [RuntimeError] and the model file is found, and not at all otherwise;
    [n] calls in a row call [open] at most once, and exactly once when the
    first probe raises [RuntimeError] and the model file is found. *)
Theorem load_model_if_not_loaded_idempotent (O : Oracle)
    (model_file : result string) :
  (∀ p t t', open O p t = (Ok (), t') → info O t' = Ok ()) →
  (∀ t, info O t = Ok () →
     load_model_if_not_loaded O model_file t = (Ok (), t)) ∧
  (∀ t, info O t = Raise RuntimeError →
     load_model_if_not_loaded O model_file t =
     match model_file with
     | Ok p => open O p t
     | Raise e' => (Raise e', t)
     end) ∧
  (∀ t e, info O t = Raise e → e ≠ RuntimeError →
     load_model_if_not_loaded O model_file t = (Raise e, t)) ∧
  (∀ t t', load_model_if_not_loaded O model_file t = (Ok (), t') →
     load_model_if_not_loaded O model_file t' = (Ok (), t')) ∧
  (∀ t k,
     snd (snd (load_model_if_not_loaded (counting O) model_file (t, k))) =
     match info O t, model_file with
     | Raise RuntimeError, Ok _ => S k
     | _, _ => k
     end) ∧
  (∀ n t k,
     snd (snd (call_times n
                 (load_model_if_not_loaded (counting O) model_file) (t, k)))
     ≤ S k) ∧
  (∀ n t k p,
     info O t = Raise RuntimeError → model_file = Ok p →
     snd (snd (call_times (S n)
                 (load_model_if_not_loaded (counting O) model_file) (t, k)))
     = S k).
Proof.
  intros Hopen.
  assert (∀ e, e ≠ RuntimeError → is_RuntimeError e = false) as Hother.
  { intros [] He; done. }
  assert (∀ e : exn, e = RuntimeError ∨ e ≠ RuntimeError) as Hcases.
  { intros []; [by left | by right | by right]. }
  assert (∀ t t', load_model_if_not_loaded O model_file t = (Ok (), t') →
                  info O t' = Ok ()) as Hafter.
  { intros t t' Hload. destruct (info O t) as [[]|e] eqn:Hinfo.
    - rewrite load_ready in Hload by done. by simplify_eq.
    - destruct (is_RuntimeError e) eqn:He.
      + rewrite (load_not_loaded O model_file t e Hinfo He) in Hload.
        destruct model_file as [p|e']; [by eapply Hopen | done].
      + by rewrite (load_fatal O model_file t e Hinfo He) in Hload. }
  assert (∀ n t k p,
            info O t = Raise RuntimeError →
            snd (snd (call_times (S n)
                        (load_model_if_not_loaded (counting O) (Ok p))
                        (t, k))) = S k) as Honce.
  { intros n t k p Hinfo. simpl. unfold mbind, M_bind.
    rewrite (load_not_loaded (counting O) (Ok p) (t, k) RuntimeError Hinfo
               eq_refl).
    simpl. destruct (open O p t) as [[[]|e'] t'] eqn:Hop; simpl; [|done].
    assert (info O t' = Ok ()) as Hinfo' by (by eapply Hopen).
    pose proof (call_times_ready (counting O) (Ok p) n (t', S k) Hinfo')
      as Hrest.
    simpl in Hrest. by rewrite Hrest. }
  split; [apply load_ready|]. split.
  { intros t Hinfo. by apply (load_not_loaded O model_file t RuntimeError). }
  split.
  { intros t e Hinfo He. apply load_fatal; [done | by apply Hother]. }
  split; [|split; [|split]].
  - intros t t' Hload. apply load_ready. by eapply Hafter.
  - intros t k. destruct (info O t) as [[]|e] eqn:Hinfo.
    + by rewrite (load_ready (counting O)).
    + destruct (Hcases e) as [->|He].
      * rewrite (load_not_loaded (counting O) model_file (t, k) RuntimeError
                   Hinfo eq_refl).
        by destruct model_file.
      * rewrite (load_fatal (counting O) model_file (t, k) e Hinfo
                   (Hother e He)).
        destruct e; try done; by destruct model_file.
  - intros [|n] t k; [simpl; lia|].
    destruct (info O t) as [[]|e] eqn:Hinfo.
    { pose proof (call_times_ready (counting O) model_file (S n) (t, k) Hinfo)
        as Hrest.
      simpl in Hrest. simpl. rewrite Hrest. simpl. lia. }
    destruct (Hcases e) as [->|He].
    2: { simpl. unfold mbind, M_bind.
         rewrite (load_fatal (counting O) model_file (t, k) e Hinfo
                    (Hother e He)).
         simpl. lia. }
    destruct model_file as [p|e'].
    + rewrite (Honce n t k p Hinfo). lia.
    + simpl. unfold mbind, M_bind.
      rewrite (load_not_loaded (counting O) (Raise e') (t, k) RuntimeError
                 Hinfo eq_refl).
      simpl. lia.
  - intros n t k p Hinfo ->. by apply Honce.
Qed.

Lemma load_model_if_not_loaded_idempotent_witness :
  snd (snd (call_times 3
              (load_model_if_not_loaded (counting Fake.oracle) Fake.model_file)
              (Fake.unloaded, 0))) = 1.
Proof.
  apply (load_model_if_not_loaded_idempotent Fake.oracle Fake.model_file)
    with (p := "model.en.crfsuite").
  - intros p t t' Hopen. injection Hopen as <-. reflexivity.
  - reflexivity.
  - reflexivity.
Defined.

(** ** The two entry points *)


(** ** The re-pluralisation loop *)

Lemma repluralise_step (pluralise_units : string → string)
    (labels : list string) (idx : nat) (toks toks1 : list string) :
  repluralise pluralise_units labels idx toks = Ok toks1 ↔
  ∃ tok lab, toks !! idx = Some tok ∧ labels !! idx = Some lab ∧
    toks1 = if decide (lab ≠ "UNIT")
            then <[idx:=pluralise_units tok]> toks else toks.
Proof.
  unfold getitem, setitem.
  destruct (toks !! idx) as [tok|] eqn:Htok; simpl.
  2: { split; [done|]. by intros (? & ? & ? & _). }
  destruct (labels !! idx) as [lab|]; simpl.
  2: { split; [done|]. by intros (? & ? & _ & ? & _). }
  apply lookup_lt_Some in Htok.
  split.
  - intros H. exists tok, lab. split; [done|]. split; [done|].
    case_decide; [|by simplify_eq]. case_decide; [by simplify_eq | lia].
  - intros (tok' & lab' & [= <-] & [= <-] & ->).
    case_decide; [|done]. case_decide; [done | lia].
Qed.

(** The loop completes when the indices lie inside the tokens and the
    labels, and keeps the number of tokens. *)
Lemma repluralise_total (pluralise_units : string → string)
    (labels : list string) (idxs : list nat) (toks : list string) :
  Forall (λ i, i < length toks ∧ i < length labels) idxs →
  ∃ toks', for_in idxs (repluralise pluralise_units labels) toks = Ok toks' ∧
    length toks' = length toks.
Proof.
  revert toks. induction idxs as [|idx rest IH]; intros toks Hin;
    [by exists toks|].
  apply Forall_cons in Hin as [[Ht Hl] Hrest].
  destruct (lookup_lt_is_Some_2 toks idx Ht) as [tok Htok].
  destruct (lookup_lt_is_Some_2 labels idx Hl) as [lab Hlab].
  set (toks1 := if decide (lab ≠ "UNIT")
                then <[idx:=pluralise_units tok]> toks else toks).
  assert (length toks1 = length toks) as Hlen.
  { unfold toks1. case_decide; [apply length_insert | done]. }
  assert (repluralise pluralise_units labels idx toks = Ok toks1) as Hstep.
  { apply repluralise_step. by exists tok, lab. }
  destruct (IH toks1) as (toks' & Hloop & Hlen').
  { rewrite Hlen. done. }
  exists toks'. split; [|congruence].
  apply for_in_cons. by exists toks1.
Qed.

(** With each index listed once, a completed loop leaves at a listed index
    whose label is not ["UNIT"] the plural of the token that was there, and
    at every other position the token that was there. *)
Lemma repluralise_Ok (pluralise_units : string → string)
    (labels : list string) (idxs : list nat) (toks toks' : list string) :
  NoDup idxs →
  for_in idxs (repluralise pluralise_units labels) toks = Ok toks' →
  ∀ i tok, toks !! i = Some tok →
    toks' !! i =
    Some (if decide (i ∈ idxs ∧ labels !! i ≠ Some "UNIT")
          then pluralise_units tok else tok).
Proof.
  revert toks. induction idxs as [|idx rest IH]; intros toks Hnd Hloop i tok Hi.
  { simpl in Hloop. simplify_eq. rewrite Hi. case_decide as H; [|done].
    destruct H as [H _]. by apply elem_of_nil in H. }
  apply NoDup_cons in Hnd as [Hnot Hnd].
  apply for_in_cons in Hloop as (toks1 & Hstep & Hloop).
  apply repluralise_step in Hstep as (tok0 & lab & Htok0 & Hlab & Htoks1).
  specialize (IH toks1 Hnd Hloop i).
  destruct (decide (i = idx)) as [->|Hne].
  - assert (tok0 = tok) as -> by congruence. rewrite Hlab.
    destruct (decide (lab ≠ "UNIT")) as [Hunit|Hunit]; subst toks1.
    + rewrite (IH (pluralise_units tok)).
      2: { apply list_lookup_insert_eq. by eapply lookup_lt_Some. }
      rewrite decide_False by (by intros [? _]).
      rewrite decide_True; [done|]. split; [by left | congruence].
    + rewrite (IH tok) by done.
      rewrite decide_False by (by intros [? _]).
      rewrite decide_False; [done|]. intros [_ H]. apply H.
      f_equal. by destruct (decide (lab = "UNIT")).
  - assert (toks1 !! i = Some tok) as Hi1.
    { subst toks1. case_decide; [|done]. by rewrite list_lookup_insert_ne. }
    rewrite (IH tok Hi1).
    destruct (decide (i ∈ rest ∧ labels !! i ≠ Some "UNIT")) as [[H1 H2]|H].
    + rewrite decide_True; [done|]. split; [by right | done].
    + rewrite decide_False; [done|]. intros [H1 H2]. apply H.
      split; [|done]. by apply elem_of_cons in H1 as [|].
Qed.

(** ** parse_ingredient_en, stage by stage *)

Section Pipeline.
Context (O : Oracle) (model_file : result string).
Context (PreProcessor : string → result PreProcessorObj).
Context (sentence_features : PreProcessorObj → result (list (Features O))).
Context (pluralise_units : string → string).
Context (ParsedIngredient : Type).
Context (parsed : PostProcessorObj → result ParsedIngredient).

(** The call, given what each stage returned. *)
Lemma parse_ingredient_en_stages (s : string) (discard str_units imperial : bool)
    (t0 t1 t2 : Tagger O) (p : PreProcessorObj) (fs : list (Features O))
    (ls : list string) (sc : list float) (toks : list string)
    (guessed : list string * list float) :
  load_model_if_not_loaded O model_file t0 = (Ok (), t1) →
  PreProcessor s = Ok p →
  sentence_features p = Ok fs →
  tag O fs t1 = (Ok ls, t2) →
  comprehension (λ q, marginal O (snd q) (fst q) t2) (enumerate ls) = Ok sc →
  for_in (singularised_indices p) (repluralise pluralise_units ls)
    (tokenized_sentence p) = Ok toks →
  (if forallb (λ label, bool_decide (label ≠ "NAME")) ls
   then guess_ingredient_name O t2 ls sc else Ok (ls, sc)) = Ok guessed →
  parse_ingredient_en O model_file PreProcessor sentence_features
    pluralise_units ParsedIngredient parsed s discard str_units imperial t0 =
  (parsed {| sentence := s; tokens := toks;
             labels := fst guessed; scores := snd guessed;
             discard_isolated_stop_words := discard;
             string_units := str_units;
             imperial_units := imperial |}, t2).
Proof.
  intros Hload Hpre Hfs Htag Hsc Hloop Hguess.
  unfold parse_ingredient_en, lift, read.
  unfold mbind, M_bind, mret, M_ret in *.
  rewrite Hload. cbn beta iota. rewrite Hpre. cbn beta iota zeta.
  rewrite Hfs. cbn beta iota. rewrite Htag. cbn beta iota.
  rewrite Hsc. cbn beta iota. rewrite Hloop. cbn beta iota.
  destruct (forallb _ ls); cbn beta iota.
  - by rewrite Hguess.
  - by injection Hguess as <-.
Qed.

(** Name recovery returns when the oracle has a name-confidence for every
    position, the scores being one per label. *)
Lemma recovery_returns (t : Tagger O) (ls : list string) (sc ns : list float) :
  comprehension (λ q, marginal O (snd q) (fst q) t) (enumerate ls) = Ok sc →
  name_scores_of O t ls = Ok ns →
  ∃ guessed,
    (if forallb (λ label, bool_decide (label ≠ "NAME")) ls
     then guess_ingredient_name O t ls sc else Ok (ls, sc)) = Ok guessed ∧
    length (fst guessed) = length ls ∧
    (Forall below_threshold ns → guessed = (ls, sc)) ∧
    (Exists (λ c, is_candidate c = true) ns → "NAME" ∈ fst guessed).
Proof.
  intros [Hlen _]%comprehension_enumerate Hns.
  destruct (forallb _ ls) eqn:Hall.
  2: { exists (ls, sc). split; [done|]. split; [done|]. split; [done|].
       intros _. simpl.
       apply not_true_iff_false in Hall. rewrite forallb_forall in Hall.
       destruct (decide ("NAME" ∈ ls)) as [|Hnot]; [done|]. exfalso.
       apply Hall. intros x Hx%list_elem_of_In. apply bool_decide_eq_true.
       by intros ->. }
  destruct (decide (candidate_indices ns = [])) as [Hnil|Hne].
  { exists (ls, sc). split; [by eapply guess_no_candidates|].
    split; [done|]. split; [done|].
    intros (c & Hc & Hcand)%Exists_exists. exfalso.
    apply list_elem_of_lookup in Hc as [i Hi].
    assert (i ∈ candidate_indices ns) as Hin.
    { apply elem_of_candidate_indices. by exists c. }
    rewrite Hnil in Hin. by apply elem_of_nil in Hin. }
  destruct (guess_selected O t ls sc ns Hns Hne) as (run & Hrun & Hg).
  destruct (guess_returns O t ls sc ns run Hns Hrun) as (l' & s' & Hloop);
    [lia|].
  exists (l', s'). rewrite Hg. split; [done|].
  apply assign_names_Ok in Hloop as (Hlen' & _ & Hin & _).
  split; [done|]. split.
  - intros Hbelow%no_candidates_below. done.
  - intros _. simpl.
    destruct run as [|i run]; [by apply selected_run_nonempty in Hrun|].
    destruct (Hin i) as [Hi _]; [by left|].
    by eapply list_elem_of_lookup_2.
Qed.
(** C3.  Let the stages before name recovery return: the model is or gets
    loaded, the sentence is tokenised, the tagger labels the tokens and has a
    confidence for each label and a name-confidence for each position, and
    the singularised indices are positions of the tokens.  Then the call
    hands the result builder one label per token, and a ["NAME"] among them
    whenever a position has a name-confidence of at least 0.2.  When every
    name-confidence is below 0.2 the labels and scores handed over are the
    tagger's own, with a ["NAME"] only if the tagger assigned one. *)
Theorem parse_ingredient_en_names_a_token (s : string)
    (discard str_units imperial : bool) (t0 t1 t2 : Tagger O)
    (p : PreProcessorObj) (fs : list (Features O)) (ls : list string)
    (sc ns : list float) :
  load_model_if_not_loaded O model_file t0 = (Ok (), t1) →
  PreProcessor s = Ok p →
  sentence_features p = Ok fs →
  tag O fs t1 = (Ok ls, t2) →
  comprehension (λ q, marginal O (snd q) (fst q) t2) (enumerate ls) = Ok sc →
  name_scores_of O t2 ls = Ok ns →
  Forall (λ i, i < length (tokenized_sentence p) ∧ i < length ls)
    (singularised_indices p) →
  ∃ post,
    parse_ingredient_en O model_file PreProcessor sentence_features
      pluralise_units ParsedIngredient parsed s discard str_units imperial t0 =
    (parsed post, t2) ∧
    length (labels post) = length ls ∧
    (Exists (λ c, is_candidate c = true) ns → "NAME" ∈ labels post) ∧
    (Forall below_threshold ns → labels post = ls ∧ scores post = sc).
Proof.
  intros Hload Hpre Hfs Htag Hsc Hns Hidx.
  destruct (repluralise_total pluralise_units ls _ _ Hidx) as (toks & Hloop & _).
  destruct (recovery_returns t2 ls sc ns Hsc Hns)
    as (guessed & Hguess & Hlen & Hbelow & Hname).
  eexists. split.
  { by eapply parse_ingredient_en_stages. }
  simpl. split; [done|]. split; [done|].
  intros H. by rewrite (Hbelow H).
Qed.

(** C4.  Let the stages return as in C3, with each singularised index listed
    once.  Then the tokens handed to the result builder are as many as the
    normalised tokens; at a singularised index whose label is not ["UNIT"]
    the token is the plural of the normalised token, and everywhere else —
    singularised indices labelled ["UNIT"], and indices that were not
    singularised — it is the normalised token.  Where the plural of a
    singularised token is the text it had before normalisation, that text is
    what the token is restored to. *)
Theorem parse_ingredient_en_restores_plurals (s : string)
    (discard str_units imperial : bool) (t0 t1 t2 : Tagger O)
    (p : PreProcessorObj) (fs : list (Features O)) (ls : list string)
    (sc ns : list float) :
  load_model_if_not_loaded O model_file t0 = (Ok (), t1) →
  PreProcessor s = Ok p →
  sentence_features p = Ok fs →
  tag O fs t1 = (Ok ls, t2) →
  comprehension (λ q, marginal O (snd q) (fst q) t2) (enumerate ls) = Ok sc →
  name_scores_of O t2 ls = Ok ns →
  Forall (λ i, i < length (tokenized_sentence p) ∧ i < length ls)
    (singularised_indices p) →
  NoDup (singularised_indices p) →
  ∃ post,
    parse_ingredient_en O model_file PreProcessor sentence_features
      pluralise_units ParsedIngredient parsed s discard str_units imperial t0 =
    (parsed post, t2) ∧
    length (tokens post) = length (tokenized_sentence p) ∧
    (∀ i tok, tokenized_sentence p !! i = Some tok →
       tokens post !! i =
       Some (if decide (i ∈ singularised_indices p ∧ ls !! i ≠ Some "UNIT")
             then pluralise_units tok else tok)) ∧
    (∀ originals : list string,
       (∀ i tok, i ∈ singularised_indices p →
          tokenized_sentence p !! i = Some tok →
          originals !! i = Some (pluralise_units tok)) →
       ∀ i, i ∈ singularised_indices p → ls !! i ≠ Some "UNIT" →
         tokens post !! i = originals !! i).
Proof.
  intros Hload Hpre Hfs Htag Hsc Hns Hidx Hnd.
  destruct (repluralise_total pluralise_units ls _ _ Hidx)
    as (toks & Hloop & Hlen).
  destruct (recovery_returns t2 ls sc ns Hsc Hns) as (guessed & Hguess & _).
  pose proof (repluralise_Ok pluralise_units ls _ _ _ Hnd Hloop) as Htoks.
  eexists. split.
  { by eapply parse_ingredient_en_stages. }
  simpl. split; [done|]. split; [done|].
  intros originals Horig i Hi Hunit.
  rewrite Forall_forall in Hidx. destruct (Hidx i Hi) as [Hlt _].
  destruct (lookup_lt_is_Some_2 _ i Hlt) as [tok Htok].
  rewrite (Htoks i tok Htok), (Horig i tok Hi Htok).
  by rewrite decide_True.
Qed.
End Pipeline.

Lemma parse_ingredient_en_names_a_token_witness :
  ∃ post,
    parse_ingredient_en Fake.oracle Fake.model_file Fake.PreProcessor
      Fake.sentence_features Fake.pluralise_units PostProcessorObj Fake.parsed
      "2 cups onions" true false false Fake.unloaded =
    (Fake.parsed post,
     {| Fake.loaded := true;
        Fake.current := [("QTY", 0.01%float); ("UNIT", 0.02%float);
                         ("COMMENT", 0.4%float)] |}) ∧
    "NAME" ∈ labels post.
Proof.
  edestruct (parse_ingredient_en_names_a_token Fake.oracle Fake.model_file
               Fake.PreProcessor Fake.sentence_features Fake.pluralise_units
               PostProcessorObj Fake.parsed
               "2 cups onions" true false false Fake.unloaded)
    as (post & Hparse & _ & Hname & _).
  - reflexivity.
  - reflexivity.
  - reflexivity.
  - reflexivity.
  - reflexivity.
  - reflexivity.
  - simpl. repeat constructor.
  - exists post. split; [exact Hparse|]. apply Hname.
    do 2 apply Exists_cons_tl. apply Exists_cons_hd. reflexivity.
Defined.

Lemma parse_ingredient_en_restores_plurals_witness :
  ∃ post,
    parse_ingredient_en Fake.oracle Fake.model_file Fake.PreProcessor
      Fake.sentence_features Fake.pluralise_units PostProcessorObj Fake.parsed
      "2 cups onions" true false false Fake.unloaded =
    (Fake.parsed post,
     {| Fake.loaded := true;
        Fake.current := [("QTY", 0.01%float); ("UNIT", 0.02%float);
                         ("COMMENT", 0.4%float)] |}) ∧
    tokens post !! 1 = Some "cup" ∧
    tokens post !! 2 = Some "onions".
Proof.
  edestruct (parse_ingredient_en_restores_plurals Fake.oracle Fake.model_file
               Fake.PreProcessor Fake.sentence_features Fake.pluralise_units
               PostProcessorObj Fake.parsed
               "2 cups onions" true false false Fake.unloaded)
    as (post & Hparse & _ & Htoks & _).
  - reflexivity.
  - reflexivity.
  - reflexivity.
  - reflexivity.
  - reflexivity.
  - reflexivity.
  - simpl. repeat constructor.
  - simpl. apply NoDup_cons. split.
    { intros H. apply list_elem_of_singleton in H. discriminate H. }
    apply NoDup_cons. split; [apply not_elem_of_nil | apply NoDup_nil_2].
  - exists post. split; [exact Hparse|]. split.
    + rewrite (Htoks 1 "cup") by reflexivity. reflexivity.
    + rewrite (Htoks 2 "onion") by reflexivity. reflexivity.
Defined.

(** * Further properties of the module's functions *)

(** ** guess_ingredient_name: bounds, repetition, what is renamed *)

Lemma selected_run_candidates (ns : list float) (run : list nat) :
  selected_run ns = Some run → candidate_indices ns ≠ [].
Proof.
  unfold selected_run. intros Hrun Hnil. rewrite Hnil in Hrun. done.
Qed.

Lemma selected_run_candidate_at (ns : list float) (run : list nat) (i : nat) :
  selected_run ns = Some run → i ∈ run → candidate_at ns i.
Proof.
  intros (pre & post & Hgroups & _)%head_sorted Hi.
  apply elem_of_candidate_indices, (elem_of_group _ run); [|done].
  rewrite Hgroups. apply elem_of_app. right. by left.
Qed.

(** The loop stops with [IndexError] at the first position of the run that
    has no score. *)
Lemma assign_names_short (ns : list float) (run : list nat) (l : list string)
    (s : list float) :
  Forall (λ i, i < length l ∧ i < length ns) run →
  Exists (λ i, length s ≤ i) run →
  for_in run (assign_name ns) (l, s) = Raise IndexError.
Proof.
  revert l s. induction run as [|j run IH]; intros l s Hin Hshort.
  { by apply Exists_nil in Hshort. }
  apply Forall_cons in Hin as [[Hl Hns] Hin].
  destruct (lookup_lt_is_Some_2 ns j Hns) as [c Hc].
  change (for_in (j :: run) (assign_name ns) (l, s))
    with (assign_name ns j (l, s) ≫= for_in run (assign_name ns)).
  destruct (decide (j < length s)) as [Hs|Hs].
  - assert (assign_name ns j (l, s) = Ok (<[j:="NAME"]> l, <[j:=c]> s)) as ->.
    { apply assign_name_Ok. eauto 10. }
    simpl. apply IH.
    + eapply Forall_impl; [exact Hin|]. intros i. by rewrite length_insert.
    + apply Exists_cons in Hshort as [Hj|Hrest]; [lia|].
      eapply Exists_impl; [exact Hrest|]. intros i. by rewrite length_insert.
  - assert (assign_name ns j (l, s) = Raise IndexError) as ->; [|done].
    unfold assign_name, setitem, getitem. simpl. rewrite Hc.
    repeat case_decide; try done; lia.
Qed.

(** X1.  When the run the call selects has a position with no score (the
    scores list is too short), the call raises [IndexError]. *)
Theorem guess_ingredient_name_short_scores (O : Oracle) (t : Tagger O)
    (labels : list string) (scores ns : list float) (run : list nat) :
  name_scores_of O t labels = Ok ns →
  selected_run ns = Some run →
  Exists (λ i, length scores ≤ i) run →
  guess_ingredient_name O t labels scores = Raise IndexError.
Proof.
  intros Hns Hrun Hshort.
  destruct (guess_selected O t labels scores ns Hns
              (selected_run_candidates ns run Hrun)) as (run' & Hrun' & ->).
  assert (run' = run) as -> by congruence.
  apply assign_names_short; [|done]. apply Forall_forall. intros i Hi.
  pose proof (selected_run_bound ns run i Hrun Hi).
  apply name_scores_length in Hns. lia.
Qed.

Lemma guess_ingredient_name_short_scores_witness :
  guess_ingredient_name Fake.oracle
    (Fake.with_names [0.05; 0.25; 0.3; 0.1]%float)
    ["QTY"; "UNIT"; "COMMENT"; "PREP"] [0.9; 0.8]%float = Raise IndexError.
Proof.
  apply (guess_ingredient_name_short_scores Fake.oracle
           (Fake.with_names [0.05; 0.25; 0.3; 0.1]%float)
           ["QTY"; "UNIT"; "COMMENT"; "PREP"] [0.9; 0.8]%float
           [0.05; 0.25; 0.3; 0.1]%float [1; 2]).
  - reflexivity.
  - vm_compute. reflexivity.
  - apply Exists_cons_tl, Exists_cons_hd. simpl. lia.
Defined.

(** The name-confidences asked of the tagger depend on the labels only
    through their number. *)
Lemma comprehension_enumerate_from_fst {A B} (f : nat → result B)
    (l : list A) (s : nat) :
  comprehension (λ p, f (fst p)) (enumerate_from s l) =
  comprehension f (seq s (length l)).
Proof.
  revert s. induction l as [|x l IH]; intros s; simpl; [done|].
  by rewrite IH.
Qed.

Lemma name_scores_of_length (O : Oracle) (t : Tagger O)
    (labels labels' : list string) :
  length labels = length labels' →
  name_scores_of O t labels = name_scores_of O t labels'.
Proof.
  intros Hlen. unfold name_scores_of, enumerate.
  rewrite (comprehension_enumerate_from_fst (λ i, marginal O "NAME" i t)).
  rewrite (comprehension_enumerate_from_fst (λ i, marginal O "NAME" i t)).
  by rewrite Hlen.
Qed.

(** The loop changes nothing when the run already carries the name label and
    the name-confidences. *)
Lemma assign_names_fixed (ns : list float) (run : list nat) (l : list string)
    (s : list float) :
  (∀ i, i ∈ run →
     l !! i = Some "NAME" ∧ ∃ c, ns !! i = Some c ∧ s !! i = Some c) →
  for_in run (assign_name ns) (l, s) = Ok (l, s).
Proof.
  induction run as [|j run IH]; intros Hrun; [done|].
  destruct (Hrun j) as (Hl & c & Hc & Hs); [by left|].
  apply for_in_cons. exists (l, s). split.
  - apply assign_name_Ok.
    split; [by eapply lookup_lt_Some|]. split; [by eapply lookup_lt_Some|].
    exists c. by rewrite !list_insert_id.
  - apply IH. intros i Hi. apply Hrun. by right.
Qed.

Lemma guess_Ok_name_scores (O : Oracle) (t : Tagger O) (labels l' : list string)
    (scores s' : list float) :
  guess_ingredient_name O t labels scores = Ok (l', s') →
  ∃ ns, name_scores_of O t labels = Ok ns.
Proof.
  unfold guess_ingredient_name.
  intros (ns & Hns & _)%result_bind_Ok. by exists ns.
Qed.

(** X2.  A call on the pair a call returned, with the tagger as it was,
    returns that pair again. *)
Theorem guess_ingredient_name_idempotent (O : Oracle) (t : Tagger O)
    (labels l' : list string) (scores s' : list float) :
  guess_ingredient_name O t labels scores = Ok (l', s') →
  guess_ingredient_name O t l' s' = Ok (l', s').
Proof.
  intros Hg. destruct (guess_Ok_name_scores O t _ _ _ _ Hg) as [ns Hns].
  destruct (decide (candidate_indices ns = [])) as [Hnil|Hne].
  { rewrite (guess_no_candidates O t labels scores ns Hns Hnil) in Hg.
    simplify_eq. by eapply guess_no_candidates. }
  destruct (guess_selected O t labels scores ns Hns Hne) as (run & Hrun & Hg1).
  rewrite Hg1 in Hg.
  pose proof (assign_names_Ok ns run _ _ _ _ Hg) as (Hlen & _ & Hin & _).
  assert (name_scores_of O t l' = Ok ns) as Hns'.
  { by rewrite (name_scores_of_length O t l' labels). }
  destruct (guess_selected O t l' s' ns Hns' Hne) as (run' & Hrun' & ->).
  assert (run' = run) as -> by congruence.
  apply assign_names_fixed. intros i Hi.
  destruct (Hin i Hi) as [Hl Hs]. split; [done|].
  pose proof (selected_run_bound ns run i Hrun Hi) as Hlt.
  destruct (lookup_lt_is_Some_2 ns i Hlt) as [c Hc].
  exists c. split; [done | congruence].
Qed.

Lemma guess_ingredient_name_idempotent_witness :
  guess_ingredient_name Fake.oracle
    (Fake.with_names [0.05; 0.25; 0.3; 0.1]%float)
    ["QTY"; "NAME"; "NAME"; "PREP"] [0.9; 0.25; 0.3; 0.6]%float =
  Ok (["QTY"; "NAME"; "NAME"; "PREP"], [0.9; 0.25; 0.3; 0.6]%float).
Proof.
  apply (guess_ingredient_name_idempotent Fake.oracle
           (Fake.with_names [0.05; 0.25; 0.3; 0.1]%float)
           ["QTY"; "UNIT"; "COMMENT"; "PREP"] _ [0.9; 0.8; 0.7; 0.6]%float).
  vm_compute. reflexivity.
Defined.

(** X3.  Every position whose label the call changes ends labelled ["NAME"],
    and its score is the tagger's name-confidence there, which is at least
    0.2. *)
Theorem guess_ingredient_name_changes (O : Oracle) (t : Tagger O)
    (labels l' : list string) (scores s' : list float) (i : nat) :
  guess_ingredient_name O t labels scores = Ok (l', s') →
  l' !! i ≠ labels !! i →
  l' !! i = Some "NAME" ∧
  ∃ c, s' !! i = Some c ∧ marginal O "NAME" i t = Ok c ∧ is_candidate c = true.
Proof.
  intros Hg Hchanged.
  destruct (guess_Ok_name_scores O t _ _ _ _ Hg) as [ns Hns].
  destruct (decide (candidate_indices ns = [])) as [Hnil|Hne].
  { rewrite (guess_no_candidates O t labels scores ns Hns Hnil) in Hg.
    by simplify_eq. }
  destruct (guess_selected O t labels scores ns Hns Hne) as (run & Hrun & Hg1).
  rewrite Hg1 in Hg.
  pose proof (assign_names_Ok ns run _ _ _ _ Hg) as (_ & _ & Hin & Hout).
  destruct (decide (i ∈ run)) as [Hi|Hi].
  2: { by destruct (Hout i Hi) as [? _]. }
  destruct (Hin i Hi) as [Hl Hs]. split; [done|].
  pose proof (selected_run_candidate_at ns run i Hrun Hi) as Hcand.
  apply (candidate_at_marginal O t labels ns i Hns) in Hcand as Hname.
  destruct Hname as (_ & c & Hm & Hc). exists c. split; [|done].
  destruct Hcand as (c' & Hc' & _).
  destruct (comprehension_enumerate _ _ _ Hns) as [Hlen Hat].
  assert (i < length labels) as Hlt.
  { rewrite <- Hlen. by eapply lookup_lt_Some. }
  destruct (lookup_lt_is_Some_2 labels i Hlt) as [x Hx].
  destruct (Hat i x Hx) as (y & Hy & Hmy). simpl in Hmy.
  rewrite Hs, Hy. congruence.
Qed.

Lemma guess_ingredient_name_changes_witness :
  ∃ c, [0.9; 0.25; 0.3; 0.6]%float !! 1 = Some c ∧
       marginal Fake.oracle "NAME" 1
         (Fake.with_names [0.05; 0.25; 0.3; 0.1]%float) = Ok c ∧
       is_candidate c = true.
Proof.
  apply (guess_ingredient_name_changes Fake.oracle
           (Fake.with_names [0.05; 0.25; 0.3; 0.1]%float)
           ["QTY"; "UNIT"; "COMMENT"; "PREP"]
           ["QTY"; "NAME"; "NAME"; "PREP"]
           [0.9; 0.8; 0.7; 0.6]%float [0.9; 0.25; 0.3; 0.6]%float 1).
  - vm_compute. reflexivity.
  - simpl. discriminate.
Defined.

Lemma group_seq (a k : nat) :
  group_consecutive_idx (seq a (S k)) = [seq a (S k)].
Proof.
  revert a. induction k as [|k IH]; intros a; [done|].
  change (seq a (S (S k))) with (a :: seq (S a) (S k)).
  cbn [group_consecutive_idx]. rewrite IH. simpl. by rewrite decide_True.
Qed.

(** X4.  When the candidate positions are the consecutive positions [a] to
    [a + k] and there is a score for every label, the call renames all of
    them: the result has ["NAME"] and the name-confidence at each of these
    positions and the given label and score everywhere else. *)
Theorem guess_ingredient_name_contiguous (O : Oracle) (t : Tagger O)
    (labels : list string) (scores ns : list float) (a k : nat) :
  name_scores_of O t labels = Ok ns →
  candidate_indices ns = seq a (S k) →
  length labels ≤ length scores →
  ∃ l' s',
    guess_ingredient_name O t labels scores = Ok (l', s') ∧
    ∀ i,
      l' !! i = (if decide (a ≤ i ≤ a + k) then Some "NAME" else labels !! i) ∧
      s' !! i = (if decide (a ≤ i ≤ a + k) then ns !! i else scores !! i).
Proof.
  intros Hns Hcand Hlen.
  assert (selected_run ns = Some (seq a (S k))) as Hrun.
  { unfold selected_run. by rewrite Hcand, group_seq. }
  pose proof (selected_run_candidates ns _ Hrun) as Hne.
  destruct (guess_selected O t labels scores ns Hns Hne) as (run & Hrun' & Hg).
  assert (run = seq a (S k)) as -> by congruence.
  destruct (guess_returns O t labels scores ns _ Hns Hrun Hlen)
    as (l' & s' & Hloop).
  exists l', s'. split; [congruence|].
  apply assign_names_Ok in Hloop as (_ & _ & Hin & Hout).
  intros i. case_decide as Hi.
  - apply Hin, elem_of_seq. lia.
  - apply Hout. rewrite elem_of_seq. lia.
Qed.

Lemma guess_ingredient_name_contiguous_witness :
  ∃ l' s',
    guess_ingredient_name Fake.oracle
      (Fake.with_names [0.05; 0.25; 0.3; 0.1]%float)
      ["QTY"; "UNIT"; "COMMENT"; "PREP"] [0.9; 0.8; 0.7; 0.6]%float =
    Ok (l', s') ∧
    ∀ i,
      l' !! i = (if decide (1 ≤ i ≤ 1 + 1) then Some "NAME"
                 else ["QTY"; "UNIT"; "COMMENT"; "PREP"] !! i) ∧
      s' !! i = (if decide (1 ≤ i ≤ 1 + 1)
                 then [0.05; 0.25; 0.3; 0.1]%float !! i
                 else [0.9; 0.8; 0.7; 0.6]%float !! i).
Proof.
  apply (guess_ingredient_name_contiguous Fake.oracle
           (Fake.with_names [0.05; 0.25; 0.3; 0.1]%float)).
  - reflexivity.
  - vm_compute. reflexivity.
  - simpl. lia.
Defined.

(** A comprehension raises what its first failing element raises. *)
Lemma comprehension_Raise {A B} (f : A → result B) (pre post : list A)
    (x : A) (e : exn) :
  Forall (λ y, ∃ b, f y = Ok b) pre →
  f x = Raise e →
  comprehension f (pre ++ x :: post) = Raise e.
Proof.
  intros Hpre Hx. induction Hpre as [|y pre [b Hy] _ IH]; simpl.
  - by rewrite Hx.
  - by rewrite Hy, IH.
Qed.

(** X5.  When the tagger has a name-confidence for the positions before [i]
    and raises at position [i] of the labels, the call raises the same
    exception, whatever the other confidences are. *)
Theorem guess_ingredient_name_marginal_raises (O : Oracle) (t : Tagger O)
    (labels : list string) (scores : list float) (i : nat) (e : exn) :
  i < length labels →
  (∀ j, j < i → ∃ c, marginal O "NAME" j t = Ok c) →
  marginal O "NAME" i t = Raise e →
  guess_ingredient_name O t labels scores = Raise e.
Proof.
  intros Hi Hbefore Hraise. unfold guess_ingredient_name.
  assert (name_scores_of O t labels = Raise e) as ->; [|done].
  unfold name_scores_of, enumerate.
  rewrite (comprehension_enumerate_from_fst (λ j, marginal O "NAME" j t)).
  replace (length labels) with (i + S (length labels - S i)) by lia.
  rewrite seq_app. simpl.
  apply comprehension_Raise; [|done].
  apply Forall_forall. intros j Hj%elem_of_seq. apply Hbefore. lia.
Qed.

Lemma guess_ingredient_name_marginal_raises_witness :
  guess_ingredient_name Fake.oracle (Fake.with_names [0.5%float])
    ["QTY"; "UNIT"] [0.9; 0.8]%float = Raise (Exception "ValueError").
Proof.
  apply (guess_ingredient_name_marginal_raises Fake.oracle
           (Fake.with_names [0.5%float]) ["QTY"; "UNIT"] [0.9; 0.8]%float 1).
  - simpl. lia.
  - intros j Hj. destruct j as [|j]; [|lia]. eexists. reflexivity.
  - reflexivity.
Defined.

(** ** The re-pluralisation loop without assumptions on the index list *)

(** A completed loop has applied [pluralise_units] to a token once for each
    time its index is listed, unless its label is ["UNIT"]. *)
Lemma repluralise_count (pluralise_units : string → string)
    (labels : list string) (idxs : list nat) (toks toks' : list string) :
  for_in idxs (repluralise pluralise_units labels) toks = Ok toks' →
  ∀ i tok, toks !! i = Some tok →
    toks' !! i =
    Some (if decide (labels !! i ≠ Some "UNIT")
          then Nat.iter (count_occ Nat.eq_dec idxs i) pluralise_units tok
          else tok).
Proof.
  revert toks. induction idxs as [|idx rest IH]; intros toks Hloop i tok Hi.
  { simpl in Hloop. simplify_eq. rewrite Hi. by case_decide. }
  apply for_in_cons in Hloop as (toks1 & Hstep & Hloop).
  apply repluralise_step in Hstep as (tok0 & lab & Htok0 & Hlab & Htoks1).
  specialize (IH toks1 Hloop i).
  destruct (decide (i = idx)) as [->|Hne].
  - assert (tok0 = tok) as -> by congruence.
    rewrite count_occ_cons_eq by done. rewrite Hlab in *.
    destruct (decide (lab ≠ "UNIT")) as [Hunit|Hunit]; subst toks1.
    + rewrite (IH (pluralise_units tok)).
      2: { apply list_lookup_insert_eq. by eapply lookup_lt_Some. }
      rewrite !decide_True by congruence. by rewrite Nat.iter_succ_r.
    + rewrite (IH tok) by done.
      assert (lab = "UNIT") as -> by (by destruct (decide (lab = "UNIT"))).
      by rewrite !decide_False by (intros H; by apply H).
  - assert (toks1 !! i = Some tok) as Hi1.
    { subst toks1. case_decide; [|done]. by rewrite list_lookup_insert_ne. }
    rewrite (IH tok Hi1). by rewrite count_occ_cons_neq.
Qed.

(** The loop raises [IndexError] when an index is outside the tokens or the
    labels. *)
Lemma repluralise_out_of_range (pluralise_units : string → string)
    (labels : list string) (idxs : list nat) (toks : list string) :
  Exists (λ i, length toks ≤ i ∨ length labels ≤ i) idxs →
  for_in idxs (repluralise pluralise_units labels) toks = Raise IndexError.
Proof.
  revert toks. induction idxs as [|idx rest IH]; intros toks Hex.
  { by apply Exists_nil in Hex. }
  change (for_in (idx :: rest) (repluralise pluralise_units labels) toks)
    with (repluralise pluralise_units labels idx toks
          ≫= for_in rest (repluralise pluralise_units labels)).
  destruct (repluralise pluralise_units labels idx toks) as [toks1|e] eqn:Hstep.
  - apply repluralise_step in Hstep as (tok & lab & Htok & Hlab & ->).
    apply lookup_lt_Some in Htok. apply lookup_lt_Some in Hlab.
    apply Exists_cons in Hex as [Hidx|Hrest]; [lia|].
    simpl. apply IH. eapply Exists_impl; [exact Hrest|].
    intros i. case_decide; [by rewrite length_insert | done].
  - simpl. revert Hstep. unfold getitem, setitem.
    destruct (toks !! idx) as [tok|] eqn:Htok; simpl; [|congruence].
    destruct (labels !! idx) as [lab|]; simpl; [|congruence].
    apply lookup_lt_Some in Htok.
    repeat case_decide; try done; lia.
Qed.

(** ** parse_ingredient_en and inspect_parser_en: more of what they do *)

Section Entry.
Context (O : Oracle) (model_file : result string).
Context (PreProcessor : string → result PreProcessorObj).
Context (sentence_features : PreProcessorObj → result (list (Features O))).
Context (pluralise_units : string → string).
Context (ParsedIngredient : Type).
Context (parsed : PostProcessorObj → result ParsedIngredient).

(** Both entry points raise what the re-pluralisation loop raises, with the
    tagger as [tag] left it. *)
Lemma entry_points_loop_raises (s : string) (discard str_units imperial : bool)
    (t0 t1 t2 : Tagger O) (p : PreProcessorObj) (fs : list (Features O))
    (ls : list string) (sc : list float) (e : exn) :
  load_model_if_not_loaded O model_file t0 = (Ok (), t1) →
  PreProcessor s = Ok p →
  sentence_features p = Ok fs →
  tag O fs t1 = (Ok ls, t2) →
  comprehension (λ q, marginal O (snd q) (fst q) t2) (enumerate ls) = Ok sc →
  for_in (singularised_indices p) (repluralise pluralise_units ls)
    (tokenized_sentence p) = Raise e →
  parse_ingredient_en O model_file PreProcessor sentence_features
    pluralise_units ParsedIngredient parsed s discard str_units imperial t0 =
  (Raise e, t2) ∧
  inspect_parser_en O model_file PreProcessor sentence_features
    pluralise_units s discard str_units imperial t0 = (Raise e, t2).
Proof.
  intros Hload Hpre Hfs Htag Hsc Hloop.
  unfold parse_ingredient_en, inspect_parser_en, lift, read.
  unfold mbind, M_bind, mret, M_ret in *.
  rewrite Hload. cbn beta iota. rewrite Hpre. cbn beta iota zeta.
  rewrite Hfs. cbn beta iota. rewrite Htag. cbn beta iota.
  rewrite Hsc. cbn beta iota. by rewrite Hloop.
Qed.

(** Name recovery keeps one label and one score per position. *)
Lemma recovery_lengths (t : Tagger O) (ls : list string) (sc : list float)
    (guessed : list string * list float) :
  (if forallb (λ label, bool_decide (label ≠ "NAME")) ls
   then guess_ingredient_name O t ls sc else Ok (ls, sc)) = Ok guessed →
  length (fst guessed) = length ls ∧ length (snd guessed) = length sc.
Proof.
  destruct (forallb _ ls); [|by intros [= <-]].
  destruct guessed as [l' s']. intros Hg.
  destruct (guess_Ok_name_scores O t _ _ _ _ Hg) as [ns Hns].
  destruct (decide (candidate_indices ns = [])) as [Hnil|Hne].
  { rewrite (guess_no_candidates O t ls sc ns Hns Hnil) in Hg.
    by simplify_eq. }
  destruct (guess_selected O t ls sc ns Hns Hne) as (run & _ & Hg1).
  rewrite Hg1 in Hg.
  by apply assign_names_Ok in Hg as (? & ? & _).
Qed.

(** X6.  Let the stages before name recovery return, with no assumption on
    how often an index is listed.  Then each token handed to the result
    builder is the normalised token with [pluralise_units] applied once per
    listing of its index, unless its label is ["UNIT"]: an index listed
    twice is pluralised twice. *)
Theorem parse_ingredient_en_pluralises_per_listing (s : string)
    (discard str_units imperial : bool) (t0 t1 t2 : Tagger O)
    (p : PreProcessorObj) (fs : list (Features O)) (ls : list string)
    (sc ns : list float) :
  load_model_if_not_loaded O model_file t0 = (Ok (), t1) →
  PreProcessor s = Ok p →
  sentence_features p = Ok fs →
  tag O fs t1 = (Ok ls, t2) →
  comprehension (λ q, marginal O (snd q) (fst q) t2) (enumerate ls) = Ok sc →
  name_scores_of O t2 ls = Ok ns →
  Forall (λ i, i < length (tokenized_sentence p) ∧ i < length ls)
    (singularised_indices p) →
  ∃ post,
    parse_ingredient_en O model_file PreProcessor sentence_features
      pluralise_units ParsedIngredient parsed s discard str_units imperial t0 =
    (parsed post, t2) ∧
    ∀ i tok, tokenized_sentence p !! i = Some tok →
      tokens post !! i =
      Some (if decide (ls !! i ≠ Some "UNIT")
            then Nat.iter (count_occ Nat.eq_dec (singularised_indices p) i)
                   pluralise_units tok
            else tok).
Proof.
  intros Hload Hpre Hfs Htag Hsc Hns Hidx.
  destruct (repluralise_total pluralise_units ls _ _ Hidx) as (toks & Hloop & _).
  destruct (recovery_returns O t2 ls sc ns Hsc Hns) as (guessed & Hguess & _).
  eexists. split.
  { by eapply parse_ingredient_en_stages. }
  simpl. by apply repluralise_count.
Qed.

(** X7.  When a singularised index lies outside the tokens or the labels,
    both entry points raise [IndexError] once the tagger has labelled the
    sentence: nothing reaches name recovery or the result builder. *)
Theorem entry_points_index_out_of_range (s : string)
    (discard str_units imperial : bool) (t0 t1 t2 : Tagger O)
    (p : PreProcessorObj) (fs : list (Features O)) (ls : list string)
    (sc : list float) :
  load_model_if_not_loaded O model_file t0 = (Ok (), t1) →
  PreProcessor s = Ok p →
  sentence_features p = Ok fs →
  tag O fs t1 = (Ok ls, t2) →
  comprehension (λ q, marginal O (snd q) (fst q) t2) (enumerate ls) = Ok sc →
  Exists (λ i, length (tokenized_sentence p) ≤ i ∨ length ls ≤ i)
    (singularised_indices p) →
  parse_ingredient_en O model_file PreProcessor sentence_features
    pluralise_units ParsedIngredient parsed s discard str_units imperial t0 =
  (Raise IndexError, t2) ∧
  inspect_parser_en O model_file PreProcessor sentence_features
    pluralise_units s discard str_units imperial t0 = (Raise IndexError, t2).
Proof.
  intros Hload Hpre Hfs Htag Hsc Hex.
  eapply entry_points_loop_raises; try done.
  by apply repluralise_out_of_range.
Qed.

(** X8.  When the tagger assigns ["NAME"] to a token, name recovery is not
    run: the result builder gets the tagger's labels and scores as they are,
    and no name-confidence is asked of the tagger. *)
Theorem parse_ingredient_en_keeps_tagger_name (s : string)
    (discard str_units imperial : bool) (t0 t1 t2 : Tagger O)
    (p : PreProcessorObj) (fs : list (Features O)) (ls : list string)
    (sc : list float) :
  load_model_if_not_loaded O model_file t0 = (Ok (), t1) →
  PreProcessor s = Ok p →
  sentence_features p = Ok fs →
  tag O fs t1 = (Ok ls, t2) →
  comprehension (λ q, marginal O (snd q) (fst q) t2) (enumerate ls) = Ok sc →
  Forall (λ i, i < length (tokenized_sentence p) ∧ i < length ls)
    (singularised_indices p) →
  "NAME" ∈ ls →
  ∃ toks,
    parse_ingredient_en O model_file PreProcessor sentence_features
      pluralise_units ParsedIngredient parsed s discard str_units imperial t0 =
    (parsed {| sentence := s; tokens := toks; labels := ls; scores := sc;
               discard_isolated_stop_words := discard;
               string_units := str_units;
               imperial_units := imperial |}, t2).
Proof.
  intros Hload Hpre Hfs Htag Hsc Hidx Hname.
  destruct (repluralise_total pluralise_units ls _ _ Hidx) as (toks & Hloop & _).
  exists toks.
  apply (parse_ingredient_en_stages O model_file PreProcessor sentence_features
           pluralise_units ParsedIngredient parsed s discard str_units imperial
           t0 t1 t2 p fs ls sc toks (ls, sc)); try done.
  destruct (forallb _ ls) eqn:Hall; [|done]. exfalso.
  rewrite forallb_forall in Hall.
  apply list_elem_of_In, Hall, bool_decide_eq_true in Hname. done.
Qed.

(** X9.  Let the stages before name recovery return, and let name recovery
    return.  Then the result builder is handed as many tokens as the
    normaliser produced, and one label and one score for each label of the
    tagger. *)
Theorem parse_ingredient_en_lengths (s : string)
    (discard str_units imperial : bool) (t0 t1 t2 : Tagger O)
    (p : PreProcessorObj) (fs : list (Features O)) (ls : list string)
    (sc ns : list float) :
  load_model_if_not_loaded O model_file t0 = (Ok (), t1) →
  PreProcessor s = Ok p →
  sentence_features p = Ok fs →
  tag O fs t1 = (Ok ls, t2) →
  comprehension (λ q, marginal O (snd q) (fst q) t2) (enumerate ls) = Ok sc →
  name_scores_of O t2 ls = Ok ns →
  Forall (λ i, i < length (tokenized_sentence p) ∧ i < length ls)
    (singularised_indices p) →
  ∃ post,
    parse_ingredient_en O model_file PreProcessor sentence_features
      pluralise_units ParsedIngredient parsed s discard str_units imperial t0 =
    (parsed post, t2) ∧
    length (tokens post) = length (tokenized_sentence p) ∧
    length (labels post) = length ls ∧
    length (scores post) = length ls.
Proof.
  intros Hload Hpre Hfs Htag Hsc Hns Hidx.
  destruct (repluralise_total pluralise_units ls _ _ Hidx)
    as (toks & Hloop & Hlen).
  destruct (recovery_returns O t2 ls sc ns Hsc Hns) as (guessed & Hguess & _).
  destruct (recovery_lengths t2 ls sc guessed Hguess) as [Hl Hs].
  pose proof (comprehension_enumerate _ _ _ Hsc) as [Hlsc _].
  eexists. split.
  { by eapply parse_ingredient_en_stages. }
  simpl. split; [done|]. split; [done | congruence].
Qed.
End Entry.

Lemma parse_ingredient_en_pluralises_per_listing_witness :
  ∃ post,
    parse_ingredient_en Fake.oracle Fake.model_file Sample.PreProcessor_twice
      Fake.sentence_features Fake.pluralise_units PostProcessorObj Fake.parsed
      "2 cups onions" true false false Fake.unloaded =
    (Fake.parsed post,
     {| Fake.loaded := true;
        Fake.current := [("QTY", 0.01%float); ("UNIT", 0.02%float);
                         ("COMMENT", 0.4%float)] |}) ∧
    tokens post !! 2 = Some "onionss".
Proof.
  edestruct (parse_ingredient_en_pluralises_per_listing Fake.oracle
               Fake.model_file Sample.PreProcessor_twice
               Fake.sentence_features Fake.pluralise_units
               PostProcessorObj Fake.parsed
               "2 cups onions" true false false Fake.unloaded)
    as (post & Hparse & Htoks).
  - reflexivity.
  - reflexivity.
  - reflexivity.
  - reflexivity.
  - reflexivity.
  - reflexivity.
  - simpl. repeat constructor.
  - exists post. split; [exact Hparse|].
    rewrite (Htoks 2 "onion") by reflexivity. reflexivity.
Defined.

Lemma entry_points_index_out_of_range_witness :
  parse_ingredient_en Fake.oracle Fake.model_file Sample.PreProcessor_stale
    Fake.sentence_features Fake.pluralise_units PostProcessorObj Fake.parsed
    "2 cups" true false false Fake.unloaded =
  (Raise IndexError,
   {| Fake.loaded := true;
      Fake.current := [("QTY", 0.01%float); ("UNIT", 0.02%float);
                       ("COMMENT", 0.4%float)] |}).
Proof.
  eapply (entry_points_index_out_of_range Fake.oracle Fake.model_file
            Sample.PreProcessor_stale Fake.sentence_features
            Fake.pluralise_units PostProcessorObj Fake.parsed
            "2 cups" true false false Fake.unloaded).
  - reflexivity.
  - reflexivity.
  - reflexivity.
  - reflexivity.
  - reflexivity.
  - simpl. apply Exists_cons_tl, Exists_cons_hd. left. lia.
Defined.

Lemma parse_ingredient_en_keeps_tagger_name_witness :
  ∃ toks,
    parse_ingredient_en Fake.oracle Fake.model_file Fake.PreProcessor
      Sample.sentence_features_named Fake.pluralise_units PostProcessorObj
      Fake.parsed "2 cups onions" true false false Fake.unloaded =
    (Fake.parsed
       {| sentence := "2 cups onions"; tokens := toks;
          labels := ["QTY"; "UNIT"; "NAME"];
          scores := [0.9; 0.9; 0.95]%float;
          discard_isolated_stop_words := true;
          string_units := false;
          imperial_units := false |},
     {| Fake.loaded := true;
        Fake.current := [("QTY", 0.01%float); ("UNIT", 0.02%float);
                         ("NAME", 0.95%float)] |}).
Proof.
  eapply (parse_ingredient_en_keeps_tagger_name Fake.oracle Fake.model_file
            Fake.PreProcessor Sample.sentence_features_named
            Fake.pluralise_units PostProcessorObj Fake.parsed
            "2 cups onions" true false false Fake.unloaded).
  - reflexivity.
  - reflexivity.
  - reflexivity.
  - reflexivity.
  - reflexivity.
  - simpl. repeat constructor.
  - do 2 apply list_elem_of_further. apply list_elem_of_here.
Defined.

Lemma parse_ingredient_en_lengths_witness :
  ∃ post,
    parse_ingredient_en Fake.oracle Fake.model_file Fake.PreProcessor
      Fake.sentence_features Fake.pluralise_units PostProcessorObj Fake.parsed
      "2 cups onions" true false false Fake.unloaded =
    (Fake.parsed post,
     {| Fake.loaded := true;
        Fake.current := [("QTY", 0.01%float); ("UNIT", 0.02%float);
                         ("COMMENT", 0.4%float)] |}) ∧
    length (labels post) = 3 ∧ length (scores post) = 3.
Proof.
  edestruct (parse_ingredient_en_lengths Fake.oracle Fake.model_file
               Fake.PreProcessor Fake.sentence_features Fake.pluralise_units
               PostProcessorObj Fake.parsed
               "2 cups onions" true false false Fake.unloaded)
    as (post & Hparse & _ & Hl & Hs).
  - reflexivity.
  - reflexivity.
  - reflexivity.
  - reflexivity.
  - reflexivity.
  - reflexivity.
  - simpl. repeat constructor.
  - exists post. split; [exact Hparse|]. split; [exact Hl | exact Hs].
Defined.

(** ** How often the entry points open the model *)

Section Opens.
Context (O : Oracle) (model_file : result string).
Context (PreProcessor : string → result PreProcessorObj).
Context (sentence_features : PreProcessorObj → result (list (Features O))).
Context (pluralise_units : string → string).
Context (ParsedIngredient : Type).
Context (parsed : PostProcessorObj → result ParsedIngredient).

(** One call of the loader calls [open] at most once, and not at all on a
    tagger that answers [info]. *)
Lemma load_count (t : Tagger O) (k : nat) :
  ∃ r t' k',
    load_model_if_not_loaded (counting O) model_file (t, k) = (r, (t', k')) ∧
    k ≤ k' ≤ S k ∧
    (info O t = Ok () → r = Ok () ∧ t' = t ∧ k' = k).
Proof.
  destruct (info O t) as [[]|e] eqn:Hinfo.
  { exists (Ok ()), t, k. rewrite (load_ready (counting O)) by done.
    split; [done|]. split; [lia | done]. }
  destruct (is_RuntimeError e) eqn:He.
  2: { exists (Raise e), t, k.
       rewrite (load_fatal (counting O) model_file (t, k) e Hinfo He).
       split; [done|]. split; [lia | done]. }
  rewrite (load_not_loaded (counting O) model_file (t, k) e Hinfo He).
  destruct model_file as [p|e'].
  - exists (fst (open O p t)), (snd (open O p t)), (S k).
    split; [done|]. split; [lia | done].
  - exists (Raise e'), t, k. split; [done|]. split; [lia | done].
Qed.

(** After the loader, neither entry point changes the count. *)
Lemma parse_count_after_load (s : string) (discard str_units imperial : bool)
    (st st1 : Tagger (counting O)) (r : result unit) :
  load_model_if_not_loaded (counting O) model_file st = (r, st1) →
  snd (snd (parse_ingredient_en (counting O) model_file PreProcessor
              sentence_features pluralise_units ParsedIngredient parsed
              s discard str_units imperial st)) = snd st1.
Proof.
  intros Hload. unfold parse_ingredient_en, lift, read.
  unfold mbind, M_bind, mret, M_ret. rewrite Hload.
  destruct st1 as [t1 k1]. simpl.
  repeat case_match; simplify_eq/=; done.
Qed.

Lemma inspect_count_after_load (s : string) (discard str_units imperial : bool)
    (st st1 : Tagger (counting O)) (r : result unit) :
  load_model_if_not_loaded (counting O) model_file st = (r, st1) →
  snd (snd (inspect_parser_en (counting O) model_file PreProcessor
              sentence_features pluralise_units
              s discard str_units imperial st)) = snd st1.
Proof.
  intros Hload. unfold inspect_parser_en, lift, read.
  unfold mbind, M_bind, mret, M_ret. rewrite Hload.
  destruct st1 as [t1 k1]. simpl.
  repeat case_match; simplify_eq/=; done.
Qed.

(** X10.  One call of either entry point calls [open] at most once, whatever
    the sentence, the collaborators and the tagger do; on a tagger that
    answers [info] it does not call [open] at all. *)
Theorem entry_points_open_at_most_once (s : string)
    (discard str_units imperial : bool) (t : Tagger O) (k : nat) :
  let after_parse :=
    snd (snd (parse_ingredient_en (counting O) model_file PreProcessor
                sentence_features pluralise_units ParsedIngredient parsed
                s discard str_units imperial (t, k))) in
  let after_inspect :=
    snd (snd (inspect_parser_en (counting O) model_file PreProcessor
                sentence_features pluralise_units
                s discard str_units imperial (t, k))) in
  k ≤ after_parse ≤ S k ∧ k ≤ after_inspect ≤ S k ∧
  (info O t = Ok () → after_parse = k ∧ after_inspect = k).
Proof.
  intros after_parse after_inspect.
  destruct (load_count t k) as (r & t' & k' & Hload & Hk & Hready).
  assert (after_parse = k') as ->.
  { unfold after_parse.
    by rewrite (parse_count_after_load s discard str_units imperial
                  (t, k) (t', k') r Hload). }
  assert (after_inspect = k') as ->.
  { unfold after_inspect.
    by rewrite (inspect_count_after_load s discard str_units imperial
                  (t, k) (t', k') r Hload). }
  split; [done|]. split; [done|].
  intros Hinfo. by destruct (Hready Hinfo) as (_ & _ & ->).
Qed.
End Opens.

Section OpensAcrossCalls.
Context (O : Oracle) (model_file : result string).
Context (PreProcessor : string → result PreProcessorObj).
Context (sentence_features : PreProcessorObj → result (list (Features O))).
Context (pluralise_units : string → string).
Context (ParsedIngredient : Type).
Context (parsed : PostProcessorObj → result ParsedIngredient).

(** What is assumed of the tagger: once [open] has returned it answers
    [info], and [tag] does not undo that. *)
Hypothesis open_ready :
  ∀ p t t', open O p t = (Ok (), t') → info O t' = Ok ().
Hypothesis tag_ready :
  ∀ fs t r t', tag O fs t = (r, t') → info O t = Ok () → info O t' = Ok ().

Local Abbreviation parse_counting s discard str_units imperial :=
  (parse_ingredient_en (counting O) model_file PreProcessor
     sentence_features pluralise_units ParsedIngredient parsed
     s discard str_units imperial).

Lemma load_Ok_ready (t t' : Tagger O) (k k' : nat) :
  load_model_if_not_loaded (counting O) model_file (t, k) = (Ok (), (t', k')) →
  info O t' = Ok ().
Proof.
  intros Hload. destruct (info O t) as [[]|e] eqn:Hinfo.
  { rewrite (load_ready (counting O)) in Hload by done. by simplify_eq. }
  destruct (is_RuntimeError e) eqn:He.
  2: { by rewrite (load_fatal (counting O) model_file (t, k) e Hinfo He)
         in Hload. }
  rewrite (load_not_loaded (counting O) model_file (t, k) e Hinfo He) in Hload.
  destruct model_file as [p|e']; [|done].
  simpl in Hload. destruct (open O p t) as [r t1] eqn:Hopen.
  simpl in Hload. simplify_eq. by eapply open_ready.
Qed.

Lemma parse_load_raises (s : string) (discard str_units imperial : bool)
    (st st1 : Tagger (counting O)) (e : exn) :
  load_model_if_not_loaded (counting O) model_file st = (Raise e, st1) →
  parse_counting s discard str_units imperial st = (Raise e, st1).
Proof.
  intros Hload. unfold parse_ingredient_en, mbind, M_bind. by rewrite Hload.
Qed.

Lemma parse_after_load (s : string) (discard str_units imperial : bool)
    (st st1 : Tagger (counting O)) :
  load_model_if_not_loaded (counting O) model_file st = (Ok (), st1) →
  load_model_if_not_loaded (counting O) model_file st1 = (Ok (), st1) →
  parse_counting s discard str_units imperial st =
  parse_counting s discard str_units imperial st1.
Proof.
  intros Hload Hload1. unfold parse_ingredient_en, mbind, M_bind.
  by rewrite Hload, Hload1.
Qed.

(** A call on a tagger that answers [info] leaves a tagger that answers
    [info], and the count as it was. *)
Lemma parse_ready (s : string) (discard str_units imperial : bool)
    (t : Tagger O) (k : nat) :
  info O t = Ok () →
  ∃ r t',
    parse_counting s discard str_units imperial (t, k) = (r, (t', k)) ∧
    info O t' = Ok ().
Proof.
  intros Hinfo. unfold parse_ingredient_en, lift, read.
  unfold mbind, M_bind, mret, M_ret.
  rewrite (load_ready (counting O)) by done. cbn beta iota.
  destruct (PreProcessor s) as [p|e]; cbn beta iota zeta; [|eauto].
  destruct (sentence_features p) as [fs|e]; cbn beta iota; [|eauto].
  simpl. destruct (tag O fs t) as [rl t2] eqn:Htag.
  assert (info O t2 = Ok ()) as Hinfo2 by (by eapply tag_ready).
  simpl. destruct rl as [ls|e]; [|eauto].
  repeat case_match; simplify_eq/=; eauto.
Qed.

Lemma each_call_ready (discard str_units imperial : bool)
    (sentences : list string) (t : Tagger O) (k : nat) :
  info O t = Ok () →
  snd (snd (each_call (λ s, parse_counting s discard str_units imperial)
              sentences (t, k))) = k.
Proof.
  revert t. induction sentences as [|s rest IH]; intros t Hinfo; [done|].
  simpl. unfold mbind, M_bind.
  destruct (parse_ready s discard str_units imperial t k Hinfo)
    as (r & t' & -> & Hinfo').
  destruct r as [a|e]; [by apply IH | done].
Qed.

(** X11.  On a tagger that answers [info] once [open] has returned and
    keeps doing so after [tag], any number of sentences parsed in a row call
    [open] at most once in all. *)
Theorem parse_ingredient_en_opens_once (discard str_units imperial : bool)
    (sentences : list string) (t : Tagger O) (k : nat) :
  snd (snd (each_call (λ s, parse_counting s discard str_units imperial)
              sentences (t, k))) ≤ S k.
Proof.
  destruct sentences as [|s rest]; [simpl; lia|].
  simpl. unfold mbind, M_bind.
  destruct (load_count O model_file t k) as (r & t' & k' & Hload & Hk & _).
  destruct r as [[]|e].
  2: { rewrite (parse_load_raises s discard str_units imperial _ _ _ Hload).
       simpl. lia. }
  pose proof (load_Ok_ready t t' k k' Hload) as Hinfo'.
  rewrite (parse_after_load s discard str_units imperial _ _ Hload
             (load_ready (counting O) model_file (t', k') Hinfo')).
  destruct (parse_ready s discard str_units imperial t' k' Hinfo')
    as (r & t'' & -> & Hinfo'').
  destruct r as [a|e]; [|simpl; lia].
  rewrite each_call_ready by done. lia.
Qed.
End OpensAcrossCalls.

Lemma parse_ingredient_en_opens_once_witness :
  snd (snd (each_call
              (λ s, parse_ingredient_en (counting Fake.oracle) Fake.model_file
                      Fake.PreProcessor Fake.sentence_features
                      Fake.pluralise_units PostProcessorObj Fake.parsed
                      s true false false)
              ["2 cups onions"; "1 onion"; "salt"] (Fake.unloaded, 0))) ≤ 1.
Proof.
  apply (parse_ingredient_en_opens_once Fake.oracle Fake.model_file
           Fake.PreProcessor Fake.sentence_features Fake.pluralise_units
           PostProcessorObj Fake.parsed).
  - intros p t t' Hopen. injection Hopen as <-. reflexivity.
  - intros fs t r t' Htag Hinfo. simpl in Htag, Hinfo.
    destruct (Fake.loaded t); [|discriminate Hinfo].
    injection Htag as <- <-. reflexivity.
Defined.

(** ** An empty sentence *)

(** X12.  When the normaliser finds no singularised index and the tagger
    returns no label, the result builder is handed the normaliser's tokens
    with an empty labels list and an empty scores list; the tagger is asked
    for no confidence at all. *)
Theorem parse_ingredient_en_no_labels (O : Oracle)
    (model_file : result string)
    (PreProcessor : string → result PreProcessorObj)
    (sentence_features : PreProcessorObj → result (list (Features O)))
    (pluralise_units : string → string)
    (ParsedIngredient : Type)
    (parsed : PostProcessorObj → result ParsedIngredient)
    (s : string) (discard str_units imperial : bool) (t0 t1 t2 : Tagger O)
    (p : PreProcessorObj) (fs : list (Features O)) :
  load_model_if_not_loaded O model_file t0 = (Ok (), t1) →
  PreProcessor s = Ok p →
  singularised_indices p = [] →
  sentence_features p = Ok fs →
  tag O fs t1 = (Ok [], t2) →
  parse_ingredient_en O model_file PreProcessor sentence_features
    pluralise_units ParsedIngredient parsed s discard str_units imperial t0 =
  (parsed {| sentence := s; tokens := tokenized_sentence p;
             labels := []; scores := [];
             discard_isolated_stop_words := discard;
             string_units := str_units;
             imperial_units := imperial |}, t2).
Proof.
  intros Hload Hpre Hidx Hfs Htag.
  apply (parse_ingredient_en_stages O model_file PreProcessor sentence_features
           pluralise_units ParsedIngredient parsed s discard str_units imperial
           t0 t1 t2 p fs [] [] (tokenized_sentence p) ([], [])); try done.
  by rewrite Hidx.
Qed.

Lemma parse_ingredient_en_no_labels_witness :
  parse_ingredient_en Fake.oracle Fake.model_file Sample.PreProcessor_empty
    Sample.sentence_features_empty Fake.pluralise_units PostProcessorObj
    Fake.parsed "" true false false Fake.unloaded =
  (Fake.parsed {| sentence := ""; tokens := [];
                  labels := []; scores := [];
                  discard_isolated_stop_words := true;
                  string_units := false;
                  imperial_units := false |},
   {| Fake.loaded := true; Fake.current := [] |}).
Proof.
  apply (parse_ingredient_en_no_labels Fake.oracle Fake.model_file
           Sample.PreProcessor_empty Sample.sentence_features_empty
           Fake.pluralise_units PostProcessorObj Fake.parsed
           "" true false false Fake.unloaded
           {| Fake.loaded := true; Fake.current := [] |}
           {| Fake.loaded := true; Fake.current := [] |}
           {| input := ""; tokenized_sentence := [];
              singularised_indices := [] |} []).
  - reflexivity.
  - reflexivity.
  - reflexivity.
  - reflexivity.
  - reflexivity.
Defined.
